(** * speasy: AMDA inventory, REST flows and the retrying transport

    A shallow embedding of

      - [speasy/common/http.py]  (the retrying [get]),
      - [speasy/amda/rest.py]    (the [AmdaRest] flows),
      - [speasy/amda/amda.py]    (the [AMDA] inventory and data access),

    in a state-and-exception monad.  Python dictionaries that are only
    indexed are finite maps ([gmap]), those the code iterates over keep
    their entries in insertion order ([dict]), texts are strings of bytes
    (UTF-8), exceptions are an explicit outcome, the network is a script of
    answers consumed by [requests.get], and everything the code does to the
    outside world (requests sent, time slept) is recorded in a trace.  The
    fragment cache that decorates [get_data] lives in [speasy/cache], which
    is not among these files: it is modelled from its specification. *)

From Stdlib Require Import ZArith QArith Qabs String Ascii List Lia.
From stdpp Require Import base option list gmap strings pretty.

Open Scope Z_scope.

(** ** Python runtime: exceptions and outcomes *)

Inductive exn : Type :=
| KeyError | ValueError | TypeError | OverflowError
| ConnectionError | JSONDecodeError | ExpatError.

(** What a call does: it returns, it raises, or it never comes back. *)
Inductive outcome (A : Type) : Type :=
| Ok (a : A)
| Raise (e : exn)
| Hang.
Arguments Ok {A} a.
Arguments Raise {A} e.
Arguments Hang {A}.

Definition returned {A} (o : outcome A) : bool :=
  match o with Ok _ => true | _ => false end.

(** State and exceptions: a raised exception keeps the state reached so
    far, as a Python exception does not roll back earlier side effects. *)
Definition ST (S A : Type) : Type := S -> outcome A * S.

Definition ret {S A} (a : A) : ST S A := fun s => (Ok a, s).

Definition raise {S A} (e : exn) : ST S A := fun s => (Raise e, s).

Definition bind {S A B} (c : ST S A) (k : A -> ST S B) : ST S B :=
  fun s =>
    match c s with
    | (Ok a, s') => k a s'
    | (Raise e, s') => (Raise e, s')
    | (Hang, s') => (Hang, s')
    end.

Definition gets {S A} (f : S -> A) : ST S A := fun s => (Ok (f s), s).

Definition modify {S} (f : S -> S) : ST S unit := fun s => (Ok tt, f s).

(** [try: c except e: h]: only the named exception is handled. *)
Definition try_except {S A} (c : ST S A) (handled : exn -> bool) (h : ST S A)
  : ST S A :=
  fun s =>
    match c s with
    | (Raise e, s') => if handled e then h s' else (Raise e, s')
    | r => r
    end.

Definition of_option {S A} (e : exn) (o : option A) : ST S A :=
  match o with Some a => ret a | None => raise e end.

Declare Scope py_scope.
Delimit Scope py_scope with py.
Notation "x <- c ;; k" := (bind c (fun x => k))
  (at level 100, c at next level, right associativity) : py_scope.
Notation "c ;; k" := (bind c (fun _ => k))
  (at level 100, right associativity) : py_scope.
Open Scope py_scope.

(** [for x in l: body], collecting the value of each round. *)
Fixpoint for_each {S A B} (body : A -> ST S B) (l : list A) : ST S (list B) :=
  match l with
  | [] => ret []
  | x :: l' => b <- body x ;; bs <- for_each body l' ;; ret (b :: bs)
  end.

(** ** Python runtime: floats, [time.sleep], [str.strip], [str.lower] *)

(** A Python float, as far as [time.sleep] tells floats apart. *)
Inductive pyfloat : Type :=
| FFin (q : Q)
| FInf (negative : bool)
| FNan.

(** [time.sleep(d)] converts [d] to a 64-bit count of nanoseconds, which
    fails on NaN ([ValueError]) and on a magnitude that does not fit
    ([OverflowError]), and then refuses a negative length. *)
Definition sleep_check (d : pyfloat) : option exn :=
  match d with
  | FNan => Some ValueError
  | FInf _ => Some OverflowError
  | FFin q =>
      if Qle_bool (2 ^ 63 # 1) (Qabs q * (10 ^ 9 # 1)) then Some OverflowError
      else if Qle_bool 0 q then None
      else Some ValueError
  end.

(** Texts are strings of bytes, the UTF-8 encoding of the Python [str].
    The characters [str.isspace] accepts are U+0009 to U+000D, U+001C to
    U+0020, U+0085, U+00A0, U+1680, U+2000 to U+200A, U+2028, U+2029,
    U+202F, U+205F and U+3000: those of one byte first. *)
Definition is_space (c : ascii) : bool :=
  let n := nat_of_ascii c in
  ((9 <=? n)%nat && (n <=? 13)%nat) || ((28 <=? n)%nat && (n <=? 32)%nat).

(** U+0085 and U+00A0, encoded on two bytes. *)
Definition is_space2 (a b : ascii) : bool :=
  let a := nat_of_ascii a in
  let b := nat_of_ascii b in
  (a =? 194)%nat && ((b =? 133)%nat || (b =? 160)%nat).

(** U+1680, U+2000 to U+200A, U+2028, U+2029, U+202F, U+205F and U+3000,
    encoded on three bytes. *)
Definition is_space3 (a b c : ascii) : bool :=
  let a := nat_of_ascii a in
  let b := nat_of_ascii b in
  let c := nat_of_ascii c in
  ((a =? 225)%nat && (b =? 154)%nat && (c =? 128)%nat)
  || ((a =? 226)%nat && (b =? 128)%nat
      && (((128 <=? c)%nat && (c <=? 138)%nat)
          || (c =? 168)%nat || (c =? 169)%nat || (c =? 175)%nat))
  || ((a =? 226)%nat && (b =? 129)%nat && (c =? 159)%nat)
  || ((a =? 227)%nat && (b =? 128)%nat && (c =? 128)%nat).

Fixpoint lstrip (s : string) : string :=
  match s with
  | String a s1 =>
      if is_space a then lstrip s1
      else
        match s1 with
        | String b s2 =>
            if is_space2 a b then lstrip s2
            else
              match s2 with
              | String c s3 => if is_space3 a b c then lstrip s3 else s
              | EmptyString => s
              end
        | EmptyString => s
        end
  | EmptyString => EmptyString
  end.

(** The text is cut where what is left is white space to the end. *)
Fixpoint rstrip (s : string) : string :=
  match s with
  | String a s' =>
      match lstrip s with
      | EmptyString => EmptyString
      | _ => String a (rstrip s')
      end
  | EmptyString => EmptyString
  end.

(** [s.strip()] *)
Definition strip (s : string) : string := rstrip (lstrip s).

Definition lower_ascii (c : ascii) : ascii :=
  let n := nat_of_ascii c in
  if ((65 <=? n)%nat && (n <=? 90)%nat)%bool then ascii_of_nat (n + 32) else c.

Fixpoint lower (s : string) : string :=
  match s with
  | String c s' => String (lower_ascii c) (lower s')
  | EmptyString => EmptyString
  end.

(** [needle in hay] for two strings. *)
Fixpoint str_contains (needle hay : string) : bool :=
  String.prefix needle hay ||
  match hay with
  | String _ hay' => str_contains needle hay'
  | EmptyString => false
  end.

(** [s.split(sep)] for a separator of one character: the pieces between
    the occurrences of [sep], of which there is always at least one. *)
Fixpoint split_on (sep : ascii) (s : string) : list string :=
  match s with
  | EmptyString => [EmptyString]
  | String c s' =>
      if Ascii.eqb c sep then EmptyString :: split_on sep s'
      else
        match split_on sep s' with
        | piece :: pieces => String c piece :: pieces
        | [] => [String c EmptyString]
        end
  end.

(** What a subscript [l[i]] comes to: the item, or the [IndexError] of an
    index past the end. *)
Inductive subscript (A : Type) : Type :=
| Item (a : A)
| IndexError.
Arguments Item {A} a.
Arguments IndexError {A}.

Definition item {A} (l : list A) (i : nat) : subscript A :=
  match nth_error l i with Some a => Item a | None => IndexError end.

(** Whether a character occurs in a string. *)
Fixpoint has_char (c : ascii) (s : string) : bool :=
  match s with
  | EmptyString => false
  | String c' s' => Ascii.eqb c' c || has_char c s'
  end.

(** ** JSON values, as [Response.json()] returns them *)

#[warnings="-register-all"]
Inductive Json : Type :=
| JNull
| JBool (b : bool)
| JNum (n : Q)
| JStr (s : string)
| JArr (l : list Json)
| JObj (o : gmap string Json).

Definition json_is_str (s : string) (j : Json) : bool :=
  match j with JStr s' => String.eqb s s' | _ => false end.

(** [key in js] for a string [key]: membership in a dict, element of a
    list, substring of a string; not defined on the other values. *)
Definition json_contains (key : string) (js : Json) : option bool :=
  match js with
  | JObj o => Some (bool_decide (is_Some (o !! key)))
  | JArr l => Some (existsb (json_is_str key) l)
  | JStr s => Some (str_contains key s)
  | JNull | JBool _ | JNum _ => None
  end.

(** [js[key]] for a string [key]: only a dict can be indexed by a string. *)
Definition json_getitem (key : string) (js : Json) : outcome Json :=
  match js with
  | JObj o => match o !! key with Some v => Ok v | None => Raise KeyError end
  | _ => Raise TypeError
  end.

Definition json_is_true (j : Json) : bool :=
  match j with JBool true => true | _ => false end.

(** ** The network, as [requests.get] sees it *)

Record Request : Type := mkRequest {
  req_url : string;
  req_headers : option (gmap string string);
  req_params : option (gmap string string)
}.

(** A response; [headers] is the case-insensitive dictionary of
    [requests], kept under lower-cased names, and [json] is what the
    [json()] method returns ([None] when the body is not JSON). *)
Record Response : Type := mkResponse {
  status_code : Z;
  headers : gmap string string;
  text : string;
  json : option Json
}.

Inductive Event : Type :=
| EvRequest (r : Request)
| EvSleep (d : pyfloat).

(** The network is a script: the answers the next calls of [requests.get]
    will receive, in order, each a response or a transport exception.
    When the script is over the network is down. *)
Record Net : Type := mkNet {
  script : list (Response + exn);
  trace : list Event
}.

Definition is_request (e : Event) : bool :=
  match e with EvRequest _ => true | EvSleep _ => false end.

Definition emit (e : Event) : ST Net unit :=
  modify (fun n => mkNet (script n) (trace n ++ [e])).

(** [requests.get(url, headers=..., params=...)] *)
Definition requests_get (url : string) (hdrs params : option (gmap string string))
  : ST Net Response :=
  emit (EvRequest (mkRequest url hdrs params)) ;;
  fun n =>
    match script n with
    | inl r :: rest => (Ok r, mkNet rest (trace n))
    | inr e :: rest => (Raise e, mkNet rest (trace n))
    | [] => (Raise ConnectionError, n)
    end.

(** [time.sleep(d)] *)
Definition sleep (d : pyfloat) : ST Net unit :=
  match sleep_check d with
  | Some e => raise e
  | None => emit (EvSleep d)
  end.

(** [resp.headers[name]] *)
Definition header (resp : Response) (name : string) : outcome string :=
  match headers resp !! lower name with
  | Some v => Ok v
  | None => Raise KeyError
  end.

(** [resp.json()] *)
Definition json_of (resp : Response) : outcome Json :=
  match json resp with Some j => Ok j | None => Raise JSONDecodeError end.

Definition lift_outcome {S A} (o : outcome A) : ST S A := fun s => (o, s).

(** ** [speasy/common/http.py] *)

Module http.
Section http.

(** [USER_AGENT], an f-string over the package version and the platform. *)
Variable USER_AGENT : string.

(** The builtin [float] on a string; [None] is [ValueError]. *)
Variable float : string -> option pyfloat.

Definition rate_limited (resp : Response) : bool :=
  (status_code resp =? 429) || (status_code resp =? 523).

(** The [try] block of the loop:
<<
      try:
          delay = float(resp.headers['Retry-After'])
      except ValueError:
          delay = 5
>> *)
Definition retry_delay (resp : Response) : ST Net pyfloat :=
  try_except
    (v <- lift_outcome (header resp "Retry-After") ;;
     of_option ValueError (float v))
    (fun e => match e with ValueError => true | _ => false end)
    (ret (FFin 5)).

(** The [while] loop, entered with the response in hand. *)
Fixpoint get_loop (fuel : nat) (url : string) (hdrs : gmap string string)
    (params : option (gmap string string)) (resp : Response)
  : ST Net Response :=
  if rate_limited resp then
    match fuel with
    | O => fun n => (Hang, n)
    | S fuel' =>
        delay <- retry_delay resp ;;
        sleep delay ;;
        resp' <- requests_get url (Some hdrs) params ;;
        get_loop fuel' url hdrs params resp'
    end
  else ret resp.

(** [get(url, headers=None, params=None)].  Every round of the loop
    consumes one answer of the script, so one more round than the script
    is long is all the loop can ever run. *)
Definition get (url : string) (hdrs params : option (gmap string string))
  : ST Net Response :=
  let hdrs := <["User-Agent" := USER_AGENT]> (default ∅ hdrs) in
  resp <- requests_get url (Some hdrs) None ;;
  fun n => get_loop (S (length (script n))) url hdrs params resp n.

(** A rate-limited response together with the delay the loop waits for
    after it. *)
Definition waits_for (rd : Response * pyfloat) : Prop :=
  rate_limited (fst rd) = true /\
  (forall n, retry_delay (fst rd) n = (Ok (snd rd), n)) /\
  sleep_check (snd rd) = None.

(** What the loop sends and sleeps while it works through a plan. *)
Definition retries (url : string) (h : gmap string string)
    (p : option (gmap string string)) (plan : list (Response * pyfloat))
  : list Event :=
  flat_map
    (fun rd => [EvSleep (snd rd); EvRequest (mkRequest url (Some h) p)])
    plan.

(** What [get] may put on the trace: a sleep, or a request to the
    caller's [url] under the package's user agent. *)
Definition from_get (url : string) (e : Event) : Prop :=
  match e with
  | EvSleep _ => True
  | EvRequest r =>
      req_url r = url /\
      exists h, req_headers r = Some h /\ h !! "User-Agent" = Some USER_AGENT
  end.

End http.
End http.

(** ** [speasy/amda/rest.py] *)

(** One round of a [for] loop whose body may [return]. *)
Inductive flow (A : Type) : Type :=
| Return (a : A)
| Next.
Arguments Return {A} a.
Arguments Next {A}.

(** [for _ in rounds: body] followed by [return fallback]. *)
Fixpoint for_return {S A} (rounds : list unit) (body : ST S (flow A))
    (fallback : A) : ST S A :=
  match rounds with
  | [] => ret fallback
  | _ :: rounds' =>
      r <- body ;;
      match r with
      | Return a => ret a
      | Next => for_return rounds' body fallback
      end
  end.

Module rest.
Section AmdaRest.

(** [self.server_url] *)
Variable server_url : string.

(** [[None] * 3] *)
Definition three_rounds : list unit := [tt; tt; tt].

(** The property [get_token]: every read is a request. *)
Definition get_token : ST Net string :=
  r <- requests_get (server_url +:+ "/php/rest/auth.php?") None None ;;
  ret (text r).

(** The common prologue: the endpoint followed by [key=str(val)&] for
    each keyword argument, in call order; the values come in already
    converted by [str]. *)
Definition base_url (endpoint : string) (kwargs : list (string * string))
  : string :=
  fold_left (fun base kv => base +:+ fst kv +:+ "=" +:+ snd kv +:+ "&")
    kwargs (server_url +:+ endpoint).

(** [get_timetable_list], called with keyword arguments; Python's [None]
    is [None]. *)
Definition get_timetable_list (kwargs : list (string * string))
  : ST Net (option string) :=
  let base_url := base_url "/php/rest/getTimeTablesList.php?" kwargs in
  for_return three_rounds
    (token <- get_token ;;
     let url := base_url +:+ "token=" +:+ token in
     r <- requests_get url None None ;;
     r <- requests_get (strip (text r)) None None ;;
     ret (Return (Some (strip (text r)))))
    None.

(** [get_timetable], called with keyword arguments *)
Definition get_timetable (kwargs : list (string * string))
  : ST Net (option string) :=
  let base_url := base_url "/php/rest/getTimeTable.php?" kwargs in
  for_return three_rounds
    (token <- get_token ;;
     let url := base_url +:+ "token=" +:+ token in
     r <- requests_get url None None ;;
     ret (Return (Some (strip (text r)))))
    None.

(** The test of [get_parameter], with the short cuts of [and]:
    ['success' in js and js['success'] is True and 'dataFileURLs' in js] *)
Definition succeeded (js : Json) : outcome bool :=
  match json_contains "success" js with
  | None => Raise TypeError
  | Some false => Ok false
  | Some true =>
      match json_getitem "success" js with
      | Ok v =>
          if json_is_true v then
            match json_contains "dataFileURLs" js with
            | None => Raise TypeError
            | Some b => Ok b
            end
          else Ok false
      | Raise e => Raise e
      | Hang => Hang
      end
  end.

(** [get_parameter], called with keyword arguments; the result is
    [js['dataFileURLs']], and Python's [None] is [JNull]. *)
Definition get_parameter (kwargs : list (string * string)) : ST Net Json :=
  let base_url := base_url "/php/rest/getParameter.php?" kwargs in
  for_return three_rounds
    (token <- get_token ;;
     let url := base_url +:+ "token=" +:+ token in
     r <- requests_get url None None ;;
     js <- lift_outcome (json_of r) ;;
     ok <- lift_outcome (succeeded js) ;;
     if ok then
       urls <- lift_outcome (json_getitem "dataFileURLs" js) ;;
       ret (Return urls)
     else ret Next)
    JNull.

(** An answer [get_parameter] takes for a failed attempt: JSON on which
    the test above is false. *)
Definition failed_answer (r : Response) : Prop :=
  exists js, json r = Some js /\ succeeded js = Ok false.

(** The requests of one round of [get_parameter]. *)
Definition parameter_round (kwargs : list (string * string)) (token : Response)
  : list Event :=
  [EvRequest (mkRequest (server_url +:+ "/php/rest/auth.php?") None None);
   EvRequest
     (mkRequest
        (base_url "/php/rest/getParameter.php?" kwargs +:+ "token=" +:+ text token)
        None None)].

(** [get_catalog_list], called with keyword arguments *)
Definition get_catalog_list (kwargs : list (string * string))
  : ST Net (option string) :=
  let base_url := base_url "/php/rest/getCatalogsList.php?" kwargs in
  for_return three_rounds
    (token <- get_token ;;
     let url := base_url +:+ "token=" +:+ token in
     r <- requests_get url None None ;;
     r <- requests_get (strip (text r)) None None ;;
     ret (Return (Some (strip (text r)))))
    None.

(** The keywords a caller of [list_user_timetables] or of
    [list_user_catalogs] cannot add to the user's name and password:
    [self], [username] and [password] name parameters that are bound
    already, and [userID] is given again in the call the method makes.
    Python raises [TypeError] for a keyword given twice. *)
Definition taken (k : string) : bool :=
  existsb (String.eqb k) ["self"; "username"; "password"; "userID"].

(** The body [return self.f(userID=username, password=password, ...)]
    with the caller's other keywords in place of the dots. *)
Definition with_credentials {A} (f : list (string * string) -> ST Net A)
    (username password : string) (kwargs : list (string * string)) : ST Net A :=
  if existsb (fun kv => taken (fst kv)) kwargs
  then raise TypeError
  else f (("userID", username) :: ("password", password) :: kwargs).

(** [list_user_timetables(username, password, **kwargs)] *)
Definition list_user_timetables : string -> string -> list (string * string) ->
                                  ST Net (option string) :=
  with_credentials get_timetable_list.

(** [list_user_catalogs(username, password, **kwargs)] *)
Definition list_user_catalogs : string -> string -> list (string * string) ->
                                ST Net (option string) :=
  with_credentials get_catalog_list.

(** [get_user_parameters], called with keyword arguments *)
Definition get_user_parameters (kwargs : list (string * string))
  : ST Net (option string) :=
  let base_url := base_url "/php/rest/getParameterList.php?" kwargs in
  for_return three_rounds
    (token <- get_token ;;
     let url := base_url +:+ "token=" +:+ token in
     r <- requests_get url None None ;;
     ret (Return (Some (strip (text r)))))
    None.

(** [get_catalog], called with keyword arguments *)
Definition get_catalog (kwargs : list (string * string))
  : ST Net (option string) :=
  let base_url := base_url "/php/rest/getCatalog.php?" kwargs in
  for_return three_rounds
    (token <- get_token ;;
     let url := base_url +:+ "token=" +:+ token in
     r <- requests_get url None None ;;
     ret (Return (Some (strip (text r)))))
    None.

(** [text.split(">")[1].split("<")[0]] *)
Definition between_tags (text : string) : subscript string :=
  match item (split_on ">" text) 1 with
  | Item piece => item (split_on "<" piece) 0
  | IndexError => IndexError
  end.

(** [get_obs_data_tree()]; an [IndexError] of the subscripts is the
    result [IndexError]. *)
Definition get_obs_data_tree : ST Net (subscript string) :=
  let url := server_url +:+ "/php/rest/getObsDataTree.php" in
  r <- requests_get url None None ;;
  ret (between_tags (text r)).

End AmdaRest.
End rest.

(** ** The state of the program *)

(** A Python dictionary whose keys the code enumerates: its entries in
    the order in which their keys were first inserted, which is the order
    in which Python iterates.  [d[k]] is the first entry under [k]; a
    dictionary built from the empty one by item assignment never has a
    second one. *)
Record dict (V : Type) : Type := Dict { entries : list (string * V) }.
Arguments Dict {V} _.
Arguments entries {V} _.

Fixpoint assoc {V} (k : string) (l : list (string * V)) : option V :=
  match l with
  | [] => None
  | (k', v) :: l' => if String.eqb k' k then Some v else assoc k l'
  end.

#[global] Instance dict_lookup {V} : Lookup string V (dict V) :=
  fun k d => assoc k (entries d).

#[global] Instance dict_empty {V} : Empty (dict V) := Dict [].

(** [d[k] = v]: a key that is there keeps its place, a new one goes to
    the end. *)
Fixpoint setitem {V} (k : string) (v : V) (l : list (string * V))
  : list (string * V) :=
  match l with
  | [] => [(k, v)]
  | (k', v') :: l' =>
      if String.eqb k' k then (k, v) :: l' else (k', v') :: setitem k v l'
  end.

#[global] Instance dict_insert {V} : Insert string V (dict V) :=
  fun k v d => Dict (setitem k v (entries d)).

#[global] Instance dict_singleton {V} : SingletonM string V (dict V) :=
  fun k v => Dict [(k, v)].

(** The keys of a list of entries, each at its first occurrence. *)
Fixpoint first_keys {V} (l : list (string * V)) : list string :=
  match l with
  | [] => []
  | (k, _) :: l' =>
      k :: List.filter (fun k' => negb (String.eqb k' k)) (first_keys l')
  end.

#[global] Instance dict_dom {V} : Dom (dict V) (gset string) :=
  fun d => list_to_set (first_keys (entries d)).

(** [len(d)] *)
#[global] Instance dict_size {V} : Size (dict V) :=
  fun d => length (first_keys (entries d)).

Abbreviation Table := (dict (gmap string string)).

(** The ten mappings of an [AMDA] instance, each from a product id to its
    record, itself a dictionary of attributes.  This is also the shape of
    the dictionary [_pack_inventory] builds. *)
Record Inventory : Type := mkInventory {
  parameter : Table;
  observatory : Table;
  instrument : Table;
  dataset : Table;
  mission : Table;
  datasetGroup : Table;
  component : Table;
  dataCenter : Table;
  folder : Table;
  timeTable : Table
}.

Definition empty_inventory : Inventory :=
  mkInventory ∅ ∅ ∅ ∅ ∅ ∅ ∅ ∅ ∅ ∅.

(** A time series: samples in time order, each a time stamp (seconds) and
    the row of values read for it. *)
Definition Series : Type := list (Z * string).

(** Modelled from the spec: a fragment is stored under the cache prefix,
    the product id and the bounds of its grid cell. *)
Definition Key : Type := string * string * Z * Z.

(** Modelled from the spec: what the cache does to its store and to the
    function it wraps, noted as it goes. *)
Inductive StoreOp : Type :=
| OpGet (k : Key)
| OpSet (k : Key)
| OpFetch (k : Key).

Definition op_key (o : StoreOp) : Key :=
  match o with OpGet k | OpSet k | OpFetch k => k end.

Record World : Type := mkWorld {
  inv : Inventory;                          (* the mappings of [self] *)
  cache : gmap string (Inventory * Z);      (* [_cache]: value and expiry *)
  store : gmap Key (option Series * string);(* fragments: payload, version *)
  store_log : list StoreOp;
  net : Net
}.

Definition set_inv (i : Inventory) (w : World) : World :=
  mkWorld i (cache w) (store w) (store_log w) (net w).
Definition set_cache (c : gmap string (Inventory * Z)) (w : World) : World :=
  mkWorld (inv w) c (store w) (store_log w) (net w).
Definition set_store (s : gmap Key (option Series * string)) (w : World) : World :=
  mkWorld (inv w) (cache w) s (store_log w) (net w).
Definition log_op (o : StoreOp) (w : World) : World :=
  mkWorld (inv w) (cache w) (store w) (store_log w ++ [o]) (net w).
Definition set_net (n : Net) (w : World) : World :=
  mkWorld (inv w) (cache w) (store w) (store_log w) n.

(** Code that only talks to the network, run inside the program. *)
Definition on_net {A} (c : ST Net A) : ST World A :=
  fun w => let (r, n) := c (net w) in (r, set_net n w).

(** Code that only works on the mappings of [self]. *)
Definition on_inv {A} (c : Inventory -> outcome A * Inventory) : ST World A :=
  fun w => let (r, i) := c (inv w) in (r, set_inv i w).

(** Code that leaves everything but the network as it found it. *)
Definition only_net {A} (c : ST World A) : Prop :=
  forall w, snd (c w) = set_net (net (snd (c w))) w.

(** [d[k]] on a dictionary. *)
Definition getitem {D V} `{Lookup string V D} (d : D) (k : string)
  : outcome V :=
  match d !! k with Some v => Ok v | None => Raise KeyError end.

(** [k in d] on a dictionary. *)
Definition contains {V} (d : dict V) (k : string) : bool :=
  bool_decide (is_Some (d !! k)).

(** [[k for k in d]]: the keys in insertion order. *)
Definition keys {V} (d : dict V) : list string :=
  first_keys (entries d).

(** Sequencing of code that has no state. *)
Definition obind {A B} (o : outcome A) (k : A -> outcome B) : outcome B :=
  match o with
  | Ok a => k a
  | Raise e => Raise e
  | Hang => Hang
  end.
Notation "x <~ c ;; k" := (obind c (fun x => k))
  (at level 100, c at next level, right associativity) : py_scope.

(** ** The fragment cache wrapped around [get_data] *)

Module cache.
Section Cacheable.

(** The arguments of the decorator. *)
Variable prefix : string.
Variable version : Inventory -> string -> outcome string.
Variable fragment_hours : string -> Z.

(** The wrapped function: product, start and stop (seconds). *)
Variable raw : string -> Z -> Z -> ST Net (option Series).

(** Modelled from the spec: the partition of a request into grid cells,
    which [speasy/cache] (not in the sources at hand) computes.  The
    cells are whole, aligned on multiples of the width, and are the
    fewest that cover [start, stop); an empty request has none. *)
Definition fragments (width start stop : Z) : list (Z * Z) :=
  if (start <? stop) && (0 <? width) then
    let first := start / width in
    let last := - ((- stop) / width) in
    (fun c => (c * width, (c + 1) * width)) <$> seqZ first (last - first)
  else [].

(** Modelled from the spec: trimming a series to the request. *)
Definition trim (start stop : Z) (s : Series) : Series :=
  List.filter (fun p => (start <=? fst p) && (fst p <? stop)) s.

(** Modelled from the spec: a retrieval that found nothing yields no
    data. *)
Definition no_data (p : option Series) : bool :=
  match p with None => true | Some _ => false end.

(** Modelled from the spec: the merged result is the payloads put end
    to end in time order and trimmed to the request, or the empty-result
    marker when no fragment yields data. *)
Definition merge (start stop : Z) (payloads : list (option Series))
  : option Series :=
  if forallb no_data payloads then None
  else Some (trim start stop (List.concat (omap id payloads))).

(** Modelled from the spec: the key of a fragment, (product id, fragment
    start, fragment end), within the store of the decorator's prefix. *)
Definition key (product : string) (frag : Z * Z) : Key :=
  (prefix, product, fst frag, snd frag).

(** Modelled from the spec: [get] and [set] of the persistent store, each
    noted in the log of store operations. *)
Definition store_get (k : Key) : ST World (option (option Series * string)) :=
  fun w => (Ok (store w !! k), log_op (OpGet k) w).

Definition store_set (k : Key) (e : option Series * string) : ST World unit :=
  fun w => (Ok tt, log_op (OpSet k) (set_store (<[k := e]> (store w)) w)).

(** Modelled from the spec: a miss or a stale entry calls the wrapped
    function on the whole cell and stores what it returns under the
    current version, over any entry that was there. *)
Definition refetch (product : string) (v : string) (frag : Z * Z)
  : ST World (option Series) :=
  let k := key product frag in
  modify (log_op (OpFetch k)) ;;
  payload <- on_net (raw product (fst frag) (snd frag)) ;;
  store_set k (payload, v) ;;
  ret payload.

(** Modelled from the spec: one fragment is looked up under its key; it
    is reused when it is there with the current version, and fetched
    again otherwise. *)
Definition fetch_fragment (product : string) (v : string) (frag : Z * Z)
  : ST World (option Series) :=
  let k := key product frag in
  entry <- store_get k ;;
  match entry with
  | Some (payload, v') =>
      if String.eqb v' v then ret payload else refetch product v frag
  | None => refetch product v frag
  end.

(** Modelled from the spec: the function the decorator [Cacheable] of
    [speasy/cache] (not in the sources at hand) puts in place of the
    wrapped one: version first, then each fragment of the request in
    ascending order, then the merge. *)
Definition Cacheable (product : string) (start stop : Z)
  : ST World (option Series) :=
  self <- gets inv ;;
  v <- lift_outcome (version self product) ;;
  let width := fragment_hours product * 3600 in
  payloads <- for_each (fetch_fragment product v) (fragments width start stop) ;;
  ret (merge start stop payloads).

End Cacheable.
End cache.

(** ** [speasy/amda/amda.py] *)

Inductive ProductType : Type :=
| UNKNOWN | DATASET | PARAMETER | COMPONENT | TIMETABLE | CATALOG.

Module amda.
Section AMDA.

(** [server_url], given to the REST and SOAP clients of [self.METHODS]. *)
Variable server_url : string.

(** [xmltodict.parse]; [None] is the parser's exception. *)
Variable Tree : Type.
Variable xmltodict_parse : string -> option Tree.

(** [ObsDataTreeParser.extrac_all] and [TimeTableTree.extrac_all] (not
    in the sources at hand).  They are handed the dictionary of
    [_pack_inventory], whose values are the very mappings of [self], and
    fill those in place: what they do to the storage is done to [self]. *)
Variable obs_extrac_all : Tree -> Inventory -> outcome unit * Inventory.
Variable tt_extrac_all : Tree -> Inventory -> outcome unit * Inventory.

(** [AmdaSoap.get_obs_data_tree] (not in the sources at hand): a remote
    call that answers with the address of the tree. *)
Variable soap_get_obs_data_tree : ST Net string.

(** [datetime.strptime]; [None] is [ValueError]. *)
Variable datetime : Type.
Variable strptime : string -> string -> option datetime.

(** [str] on a time stamp, and [load_csv] and [load_timetable] (not in
    the sources at hand), which download and read the file a REST answer
    points to.  What [load_timetable] returns is handed on as it is:
    Python's [None] is [None]. *)
Variable str_float : Z -> string.
Variable load_csv : Json -> ST Net Series.
Variable Timetable : Type.
Variable load_timetable : string -> ST Net (option Timetable).

(** [t.strftime(format)] on a time stamp. *)
Variable strftime : Z -> string -> string.

(** Modelled from the spec: the decorator [Proxyfiable] of
    [speasy/proxy] (not in the sources at hand) may route a retrieval
    through an intermediary under the same (product, start, stop)
    contract; whichever path runs, it is a retrieval over the network. *)
Variable Proxyfiable :
  (string -> Z -> Z -> ST Net (option Series)) ->
  string -> Z -> Z -> ST Net (option Series).

Record DateTimeRange : Type := mkDateTimeRange {
  start_time : datetime;
  stop_time : datetime
}.

Definition _pack_inventory (self : Inventory) : Inventory := self.

(** [_cache.set(key, value, expire=...)] *)
Definition cache_set (key : string) (value : Inventory) (expire : Z)
  : ST World unit :=
  modify (fun w => set_cache (<[key := (value, expire)]> (cache w)) w).

(** [get_obs_data_tree(method="SOAP")] *)
Definition get_obs_data_tree : ST World Tree :=
  url <- on_net soap_get_obs_data_tree ;;
  r <- on_net (requests_get url None None) ;;
  of_option ExpatError (xmltodict_parse (text r)).

(** [get_timetable_tree(method="REST")]; [xmltodict.parse] does not take
    [None], which [get_timetable_list] in fact never returns. *)
Definition get_timetable_tree : ST World Tree :=
  ttt <- on_net (rest.get_timetable_list server_url []) ;;
  match ttt with
  | Some ttt => of_option ExpatError (xmltodict_parse ttt)
  | None => raise TypeError
  end.

(** [update_inventory(method="SOAP")].  [storage] is bound before the
    extractions, but to the mappings of [self] themselves: what is saved at
    the end is what the extractions have made of them. *)
Definition update_inventory : ST World unit :=
  tree <- get_obs_data_tree ;;
  on_inv (obs_extrac_all tree) ;;
  tttree <- get_timetable_tree ;;
  on_inv (tt_extrac_all tttree) ;;
  storage <- gets (fun w => _pack_inventory (inv w)) ;;
  cache_set "AMDA/inventory" storage (7 * 24 * 60 * 60).

(** [__init__], past the creation of the empty mappings. *)
Definition __init__ : ST World unit :=
  snapshot <- gets (fun w => cache w !! "AMDA/inventory") ;;
  match snapshot with
  | Some (inventory, _) => modify (set_inv inventory)
  | None => update_inventory
  end.

(** [get_product_type(product_id)] *)
Definition get_product_type (self : Inventory) (product_id : string)
  : ProductType :=
  if contains (dataset self) product_id then DATASET
  else if contains (parameter self) product_id then PARAMETER
  else if contains (component self) product_id then COMPONENT
  else UNKNOWN.

(** [product_version(parameter_id)] *)
Definition product_version (self : Inventory) (parameter_id : string)
  : outcome string :=
  p <~ getitem (parameter self) parameter_id ;;
  name <~ getitem p "dataset" ;;
  d <~ getitem (dataset self) name ;;
  getitem d "lastUpdate".

(** The comprehension of [list_parameters]:
    [[k for k in self.parameter if self.parameter[k]["dataset"] == dataset_id]] *)
Fixpoint parameters_of (self : Inventory) (dataset_id : string)
    (ks : list string) : outcome (list string) :=
  match ks with
  | [] => Ok []
  | k :: ks' =>
      p <~ getitem (parameter self) k ;;
      name <~ getitem p "dataset" ;;
      rest <~ parameters_of self dataset_id ks' ;;
      Ok (if String.eqb name dataset_id then k :: rest else rest)
  end.

(** [list_parameters(dataset_id=None)]; the ids come in the order in
    which the mapping received its keys. *)
Definition list_parameters (self : Inventory) (dataset_id : option string)
  : outcome (list string) :=
  match dataset_id with
  | Some dataset_id => parameters_of self dataset_id (keys (parameter self))
  | None => Ok (keys (parameter self))
  end.

(** Whether the record of parameter [k] names [dataset_id] as its dataset. *)
Definition owned_by (self : Inventory) (dataset_id : string) (k : string) : bool :=
  match parameter self !! k with
  | Some p =>
      match p !! "dataset" with
      | Some name => String.eqb name dataset_id
      | None => false
      end
  | None => false
  end.

(** [list_datasets()] and [list_timetables()] *)
Definition list_datasets (self : Inventory) : list string :=
  keys (dataset self).
Definition list_timetables (self : Inventory) : list string :=
  keys (timeTable self).

(** The end of [parameter_range]: the window of a dataset name. *)
Definition dataset_range (self : Inventory) (dataset_name : string)
  : outcome (option DateTimeRange) :=
  if contains (dataset self) dataset_name then
    d <~ getitem (dataset self) dataset_name ;;
    a <~ getitem d "dataStart" ;;
    a <~ match strptime a "%Y-%m-%dT%H:%M:%SZ" with
         | Some t => Ok t | None => Raise ValueError end ;;
    b <~ getitem d "dataStop" ;;
    b <~ match strptime b "%Y-%m-%dT%H:%M:%SZ" with
         | Some t => Ok t | None => Raise ValueError end ;;
    Ok (Some (mkDateTimeRange a b))
  else Ok None.

(** [parameter_range], past the check of the inventory. *)
Definition resolve_range (self : Inventory) (parameter_id : string)
  : outcome (option DateTimeRange) :=
  let product_type := get_product_type self parameter_id in
  match product_type with
  | PARAMETER =>
      p <~ getitem (parameter self) parameter_id ;;
      dataset_name <~ getitem p "dataset" ;;
      dataset_range self dataset_name
  | DATASET => dataset_range self parameter_id
  | COMPONENT =>
      c <~ getitem (component self) parameter_id ;;
      dataset_name <~ getitem c "dataset" ;;
      dataset_range self dataset_name
  | _ => Ok None
  end.

(** The owner of an id in the words of the catalog contract: the
    [dataset] back-reference of a parameter or of a component, the id
    itself for a dataset, nothing otherwise. *)
Definition ownerDataset (self : Inventory) (id : string) : option string :=
  match get_product_type self id with
  | PARAMETER => p ← parameter self !! id; p !! "dataset"
  | COMPONENT => c ← component self !! id; c !! "dataset"
  | DATASET => Some id
  | _ => None
  end.

(** [parameter_range(parameter_id)] *)
Definition parameter_range (parameter_id : string)
  : ST World (option DateTimeRange) :=
  n <- gets (fun w => size (parameter (inv w))) ;;
  (if (n =? 0)%nat then update_inventory else ret tt) ;;
  self <- gets inv ;;
  lift_outcome (resolve_range self parameter_id).

(** [_dl_parameter(start_time, stop_time, parameter_id, method="REST")] *)
Definition _dl_parameter (start_time stop_time : Z) (parameter_id : string)
  : ST Net (option Series) :=
  url <- rest.get_parameter server_url
           [("startTime", str_float start_time);
            ("stopTime", str_float stop_time);
            ("parameterID", parameter_id);
            ("timeFormat", "UNIXTIME")] ;;
  match url with
  | JNull => ret None
  | _ => var <- load_csv url ;; ret (Some var)
  end.

(** [_dl_timetable(timetable_id, method="REST")]; the test [if var]
    only chooses the line that is logged. *)
Definition _dl_timetable (timetable_id : string) : ST Net (option Timetable) :=
  url <- rest.get_timetable server_url [("ttID", timetable_id)] ;;
  match url with
  | Some url => var <- load_timetable url ;; ret var
  | None => ret None
  end.

(** [get_timetable(timetable_id)] *)
Definition get_timetable (timetable_id : string) : ST Net (option Timetable) :=
  _dl_timetable timetable_id.

(** [get_data(product, start_time, stop_time)], as decorated:
<<
  @Cacheable(prefix="amda", version=product_version, fragment_hours=lambda x: 12)
  @Proxyfiable(GetProduct, get_parameter_args)
  def get_data(self, product, start_time, stop_time):
      return self._dl_parameter(start_time=start_time, stop_time=stop_time,
                                parameter_id=product)
>> *)
Definition get_data : string -> Z -> Z -> ST World (option Series) :=
  cache.Cacheable "amda" product_version (fun x => 12)
    (Proxyfiable
       (fun product start_time stop_time =>
          _dl_parameter start_time stop_time product)).

(** [get_parameter(parameter_id, start_time, stop_time)] *)
Definition get_parameter (parameter_id : string) (start_time stop_time : Z)
  : ST World (option Series) :=
  get_data parameter_id start_time stop_time.

(** [_dl_user_parameter(parameter_id, username, password, start_time,
    stop_time)], with [__datetime_format__] for the two times. *)
Definition _dl_user_parameter (parameter_id username password : string)
    (start_time stop_time : Z) : ST Net (option Series) :=
  url <- rest.get_parameter server_url
           [("parameterID", parameter_id);
            ("userID", username);
            ("password", password);
            ("startTime", strftime start_time "%Y-%m-%dT%H:%M:%S.%f");
            ("stopTime", strftime stop_time "%Y-%m-%dT%H:%M:%S.%f")] ;;
  match url with
  | JNull => ret None
  | _ => var <- load_csv url ;; ret (Some var)
  end.

(** [get_dataset(dataset_id, start, stop)] *)
Definition get_dataset (dataset_id : string) (start stop : Z)
  : ST World (list (option Series)) :=
  self <- gets inv ;;
  parameters <- lift_outcome (list_parameters self (Some dataset_id)) ;;
  for_each (fun p => get_parameter p start stop) parameters.

End AMDA.
End amda.

(** ** Runs on a scripted network *)

(** The concrete values used by the runs at the end of the file. *)
Module run.

Definition USER_AGENT : string := "Speasy/0.9.0 uname (SciQLop project)".

Fixpoint digits (acc : Z) (s : string) : option Z :=
  match s with
  | EmptyString => Some acc
  | String c s' =>
      let n := Z.of_nat (nat_of_ascii c) in
      if (48 <=? n) && (n <=? 57) then digits (10 * acc + (n - 48)) s'
      else None
  end.

(** [float] on the strings of the runs: a string of decimal digits is
    the number it spells, and the one other string the runs use,
    ["soon"], is rejected as Python rejects it. *)
Definition float (s : string) : option pyfloat :=
  match s with
  | EmptyString => None
  | _ => (fun z => FFin (inject_Z z)) <$> digits 0 s
  end.

Definition url : string := "http://amda.irap.omp.eu/php/rest/auth.php".

Definition params : gmap string string := {[ "userID" := "guest" ]}.

(** The headers every request of [get] goes out with when the caller
    gives none. *)
Definition sent_headers : gmap string string :=
  {[ "User-Agent" := USER_AGENT ]}.

(** 429 with [Retry-After: 1] *)
Definition limited_1s : Response :=
  mkResponse 429 {[ "retry-after" := "1" ]} "Too Many Requests" None.

(** 429 without a [Retry-After] header *)
Definition limited_bare : Response :=
  mkResponse 429 ∅ "Too Many Requests" None.

(** 523 with [Retry-After: soon] *)
Definition limited_soon : Response :=
  mkResponse 523 {[ "retry-after" := "soon" ]} "Origin Is Unreachable" None.

Definition ok_200 : Response := mkResponse 200 ∅ "token" None.

(** [float] with a leading minus sign read as well. *)
Definition signed_float (s : string) : option pyfloat :=
  match s with
  | String "-" s' =>
      match s' with
      | EmptyString => None
      | _ => (fun z => FFin (inject_Z (- z))) <$> digits 0 s'
      end
  | _ => float s
  end.

(** 429 with [Retry-After: -1] *)
Definition limited_minus_1s : Response :=
  mkResponse 429 {[ "retry-after" := "-1" ]} "Too Many Requests" None.

Definition server_url : string := "http://amda.irap.omp.eu".

(** The tree of a document; for the runs, the document itself. *)
Definition Tree : Type := string.
Definition xmltodict_parse (s : string) : option Tree := Some s.

Definition imf : gmap string string :=
  <["dataset" := "ace-imf-all"]> (<["name" := "|b|,bx,by,bz"]> ∅).

Definition ace_imf_all : gmap string string :=
  <["dataStart" := "2000-01-01T00:00:00Z"]>
    (<["dataStop" := "2000-01-02T00:00:00Z"]>
       (<["lastUpdate" := "2021-06-01T12:00:00Z"]> ∅)).

(** A catalog with the parameter [imf] of the dataset [ace-imf-all]. *)
Definition catalog : Inventory :=
  mkInventory {[ "imf" := imf ]} ∅ ∅ {[ "ace-imf-all" := ace_imf_all ]}
    ∅ ∅ ∅ ∅ ∅ ∅.

(** The same catalog when the remote tree gives the dataset no
    attribute at all: no [dataStart], no [dataStop], no [lastUpdate]. *)
Definition bare_catalog : Inventory :=
  mkInventory {[ "imf" := imf ]} ∅ ∅ {[ "ace-imf-all" := ∅ ]}
    ∅ ∅ ∅ ∅ ∅ ∅.

(** Stand-ins for the two extractions: whatever the tree, the first
    files the records of [catalog] into the storage, the second one
    timetable. *)
Definition obs_extrac_all (t : Tree) (i : Inventory) : outcome unit * Inventory :=
  (Ok tt,
   mkInventory (<["imf" := imf]> (parameter i)) (observatory i) (instrument i)
     (<["ace-imf-all" := ace_imf_all]> (dataset i)) (mission i)
     (datasetGroup i) (component i) (dataCenter i) (folder i) (timeTable i)).

Definition tt_extrac_all (t : Tree) (i : Inventory) : outcome unit * Inventory :=
  (Ok tt,
   mkInventory (parameter i) (observatory i) (instrument i) (dataset i)
     (mission i) (datasetGroup i) (component i) (dataCenter i) (folder i)
     (<["sharedtimeTable_0" := {[ "name" := "FTE_c1" ]}]> (timeTable i))).

Definition soap_get_obs_data_tree : ST Net string :=
  ret "http://amda.irap.omp.eu/data/tree.xml".

Record datetime : Type := mkDatetime {
  year : Z; month : Z; day : Z; hour : Z; minute : Z; second : Z
}.

Definition digit (c : ascii) : option Z :=
  let n := Z.of_nat (nat_of_ascii c) in
  if (48 <=? n) && (n <=? 57) then Some (n - 48) else None.

Definition two_digits (a b : ascii) : option Z :=
  x ← digit a; y ← digit b; Some (10 * x + y).

(** [datetime.strptime] on the stamps of the runs: four digits of year
    and two zero-padded digits for each other field, in
    [%Y-%m-%dT%H:%M:%SZ]. *)
Definition strptime (s fmt : string) : option datetime :=
  if String.eqb fmt "%Y-%m-%dT%H:%M:%SZ" then
    match list_ascii_of_string s with
    | [y1; y2; y3; y4; "-"; m1; m2; "-"; d1; d2; "T";
       h1; h2; ":"; n1; n2; ":"; s1; s2; "Z"]%char =>
        yh ← two_digits y1 y2; yl ← two_digits y3 y4;
        mo ← two_digits m1 m2; da ← two_digits d1 d2;
        ho ← two_digits h1 h2; mi ← two_digits n1 n2; se ← two_digits s1 s2;
        if (1 <=? mo) && (mo <=? 12) && (1 <=? da) && (da <=? 31)
           && (ho <? 24) && (mi <? 60) && (se <? 62)
        then Some (mkDatetime (100 * yh + yl) mo da ho mi se)
        else None
    | _ => None
    end
  else None.

(** [str] of a whole time stamp held in a float. *)
Definition str_float (z : Z) : string := pretty z +:+ ".0".

Fixpoint until_space (s : string) : string * string :=
  match s with
  | EmptyString => (EmptyString, EmptyString)
  | String c s' =>
      if Ascii.eqb c " " then (EmptyString, s')
      else let (a, b) := until_space s' in (String c a, b)
  end.

(** A stand-in for [load_csv]: it downloads the file and reads one
    sample from it, a time stamp followed by the values. *)
Definition load_csv (url : Json) : ST Net Series :=
  match url with
  | JStr u =>
      r <- requests_get u None None ;;
      let (t, row) := until_space (text r) in
      match digits 0 t with
      | Some t => ret [(t, row)]
      | None => raise ValueError
      end
  | _ => raise TypeError
  end.

(** The direct path: no proxy. *)
Definition Proxyfiable (f : string -> Z -> Z -> ST Net (option Series))
  : string -> Z -> Z -> ST Net (option Series) := f.

(** Answers of the remote service. *)
Definition answer (body : string) : Response := mkResponse 200 ∅ body None.

Definition answer_json (js : Json) : Response :=
  mkResponse 200 ∅ "{...}" (Some js).

(** The answers [update_inventory] needs: the tree, then a token, the
    address of the list of timetables and the list itself. *)
Definition update_script : list (Response + exn) :=
  [inl (answer "<dataRoot>...</dataRoot>");
   inl (answer "token");
   inl (answer " http://amda.irap.omp.eu/data/tt.xml ");
   inl (answer "<timetabList>...</timetabList>")].

(** Answers to [get_timetable_list] when the first attempt breaks at its
    second request and the service is back at once. *)
Definition recovering_script : list (Response + exn) :=
  [inl (answer "token");
   inr ConnectionError;
   inl (answer "token");
   inl (answer " http://amda.irap.omp.eu/data/tt.xml ");
   inl (answer "<timetabList>...</timetabList>")].

(** A service that answers every request with an error page. *)
Definition error_page : Response :=
  mkResponse 500 ∅ " Internal Server Error " None.

Definition failing_script : list (Response + exn) :=
  [inl error_page; inl error_page; inl error_page;
   inl error_page; inl error_page; inl error_page].

(** The answers one raw fetch needs: a token, the JSON that points to
    the file, and the file with one sample at [t]. *)
Definition file_url : string := "http://amda.irap.omp.eu/data/imf.txt".

Definition fetch_script (t : string) : list (Response + exn) :=
  [inl (answer "token");
   inl (answer_json
          (JObj (<["success" := JBool true]>
                   (<["dataFileURLs" := JStr file_url]> ∅))));
   inl (answer (t +:+ " 5.1 -2.3 0.4"))].

(** The state [update_inventory] leaves behind when it starts from empty
    mappings and receives [update_script]. *)
Definition updated_inventory : Inventory :=
  mkInventory {[ "imf" := imf ]} ∅ ∅ {[ "ace-imf-all" := ace_imf_all ]}
    ∅ ∅ ∅ ∅ ∅ {[ "sharedtimeTable_0" := {[ "name" := "FTE_c1" ]} ]}.

Definition updated_world : World :=
  mkWorld updated_inventory
    {[ "AMDA/inventory" := (updated_inventory, 604800) ]} ∅ []
    (mkNet []
       [EvRequest (mkRequest "http://amda.irap.omp.eu/data/tree.xml" None None);
        EvRequest (mkRequest "http://amda.irap.omp.eu/php/rest/auth.php?" None None);
        EvRequest
          (mkRequest
             "http://amda.irap.omp.eu/php/rest/getTimeTablesList.php?token=token"
             None None);
        EvRequest (mkRequest "http://amda.irap.omp.eu/data/tt.xml" None None)]).

(** Midnight and noon of 2000-01-01, and midnight of 2000-01-02 (UTC). *)
Definition t0 : Z := 946684800.
Definition t12 : Z := 946728000.
Definition t24 : Z := 946771200.

(** The keys of the morning and of the afternoon of 2000-01-01 for [imf]. *)
Definition morning : Key := ("amda", "imf", t0, t12).
Definition afternoon : Key := ("amda", "imf", t12, t24).

Definition sample : Series := [(t0, "5.1 -2.3 0.4")].

(** The three requests of one raw fetch of the morning. *)
Definition fetch_trace : list Event :=
  [EvRequest (mkRequest "http://amda.irap.omp.eu/php/rest/auth.php?" None None);
   EvRequest
     (mkRequest
        ("http://amda.irap.omp.eu/php/rest/getParameter.php?"
         +:+ "startTime=946684800.0&stopTime=946728000.0"
         +:+ "&parameterID=imf&timeFormat=UNIXTIME&token=token")
        None None);
   EvRequest (mkRequest "http://amda.irap.omp.eu/data/imf.txt" None None)].

(** The state after the morning was fetched into an empty store. *)
Definition fetched_world : World :=
  mkWorld catalog ∅
    {[ morning := (Some sample, "2021-06-01T12:00:00Z") ]}
    [OpGet morning; OpFetch morning; OpSet morning]
    (mkNet [] fetch_trace).

(** A store that holds the morning and the afternoon under version "1",
    while the catalog has moved on to another version. *)
Definition stale_store : gmap Key (option Series * string) :=
  <[morning := (Some [(t0, "old")], "1")]>
    (<[afternoon := (Some [(t12, "old")], "1")]> ∅).

Definition stale_world : World :=
  mkWorld catalog ∅ stale_store [] (mkNet (fetch_script "946684800") []).

(** A program started on inventory [i] with answers [sc] to come. *)
Definition world_of (i : Inventory) (sc : list (Response + exn)) : World :=
  mkWorld i ∅ ∅ [] (mkNet sc []).

(** An answer [get_parameter] takes for a failed attempt, and one that
    succeeds but points to no file. *)
Definition refusal : Response :=
  answer_json (JObj (<["success" := JBool false]> ∅)).


(** Stand-ins for [load_timetable], which downloads the file it is
    pointed to and makes nothing of an empty one, and for [strftime]. *)
Definition Timetable : Type := string.
Definition load_timetable (url : string) : ST Net (option Timetable) :=
  r <- requests_get url None None ;;
  ret (match text r with EmptyString => None | t => Some t end).

Definition strftime (t : Z) (fmt : string) : string := pretty t.

(** A catalog with a parameter record that names no dataset. *)
Definition orphan_catalog : Inventory :=
  mkInventory (<["orphan" := ∅]> {[ "imf" := imf ]}) ∅ ∅
    {[ "ace-imf-all" := ace_imf_all ]} ∅ ∅ ∅ ∅ ∅ ∅.

(** A catalog with one timetable and nothing else. *)
Definition timetables_only : Inventory :=
  mkInventory ∅ ∅ ∅ ∅ ∅ ∅ ∅ ∅ ∅ {[ "sharedtimeTable_0" := ∅ ]}.

End run.

(** * Facts *)

(** ** The monad *)

Lemma bind_ok {S A B} (c : ST S A) (k : A -> ST S B) s a s' :
  c s = (Ok a, s') -> bind c k s = k a s'.
Proof. intros H. unfold bind. now rewrite H. Qed.

Lemma bind_raise {S A B} (c : ST S A) (k : A -> ST S B) s e s' :
  c s = (Raise e, s') -> bind c k s = (Raise e, s').
Proof. intros H. unfold bind. now rewrite H. Qed.

Lemma bind_inv_ok {S A B} (c : ST S A) (k : A -> ST S B) s b s2 :
  bind c k s = (Ok b, s2) ->
  exists a s1, c s = (Ok a, s1) /\ k a s1 = (Ok b, s2).
Proof.
  unfold bind. destruct (c s) as [[a | e |] s1]; intros H; try discriminate.
  now exists a, s1.
Qed.

(** ** [speasy/common/http.py] *)

Section http_facts.

Variable USER_AGENT : string.
Variable float : string -> option pyfloat.

Abbreviation retry_delay := (http.retry_delay float).
Abbreviation get_loop := (http.get_loop float).
Abbreviation get := (http.get USER_AGENT float).

Lemma requests_get_answer url h p r rest tr :
  requests_get url h p (mkNet (inl r :: rest) tr)
  = (Ok r, mkNet rest (tr ++ [EvRequest (mkRequest url h p)])).
Proof. reflexivity. Qed.

Lemma requests_get_script url h p n :
  (length (script (snd (requests_get url h p n))) <= length (script n))%nat.
Proof.
  destruct n as [[| [r | e] rest] tr]; cbn; lia.
Qed.

Lemma requests_get_consumes url h p n r n' :
  requests_get url h p n = (Ok r, n') ->
  (length (script n') < length (script n))%nat.
Proof.
  destruct n as [[| [r0 | e] rest] tr]; cbn; intros H; inversion H; cbn; lia.
Qed.

Lemma header_retry_after resp :
  header resp "Retry-After"
  = match headers resp !! "retry-after" with
    | Some v => Ok v
    | None => Raise KeyError
    end.
Proof. reflexivity. Qed.

(** The three ways the [try] block ends. *)
Lemma retry_delay_absent resp n :
  headers resp !! "retry-after" = None ->
  retry_delay resp n = (Raise KeyError, n).
Proof.
  intros H. unfold http.retry_delay, try_except, bind, lift_outcome.
  rewrite header_retry_after, H. reflexivity.
Qed.

Lemma retry_delay_invalid resp v n :
  headers resp !! "retry-after" = Some v -> float v = None ->
  retry_delay resp n = (Ok (FFin 5), n).
Proof.
  intros H Hv. unfold http.retry_delay, try_except, bind, lift_outcome.
  rewrite header_retry_after, H. cbn. now rewrite Hv.
Qed.

Lemma retry_delay_valid resp v d n :
  headers resp !! "retry-after" = Some v -> float v = Some d ->
  retry_delay resp n = (Ok d, n).
Proof.
  intros H Hv. unfold http.retry_delay, try_except, bind, lift_outcome.
  rewrite header_retry_after, H. cbn. now rewrite Hv.
Qed.

Lemma retry_delay_state resp n : snd (retry_delay resp n) = n.
Proof.
  unfold http.retry_delay, try_except, bind, lift_outcome.
  rewrite header_retry_after.
  destruct (headers resp !! "retry-after") as [v |]; cbn; [| reflexivity].
  destruct (float v); reflexivity.
Qed.

Lemma retry_delay_no_hang resp n : fst (retry_delay resp n) <> Hang.
Proof.
  unfold http.retry_delay, try_except, bind, lift_outcome.
  rewrite header_retry_after.
  destruct (headers resp !! "retry-after") as [v |]; cbn; [| discriminate].
  destruct (float v); cbn; discriminate.
Qed.

Lemma sleep_script d n :
  script (snd (sleep d n)) = script n /\ fst (sleep d n) <> Hang.
Proof.
  unfold sleep. destruct (sleep_check d); cbn; split; auto; discriminate.
Qed.

(** The loop cannot go on for longer than the script. *)
Lemma get_loop_never_hangs fuel : forall url h p resp n,
  (length (script n) < fuel)%nat ->
  fst (get_loop fuel url h p resp n) <> Hang.
Proof.
  induction fuel as [| fuel IH]; intros url h p resp n Hlen; [lia |].
  cbn [http.get_loop]. destruct (http.rate_limited resp); [| discriminate].
  unfold bind at 1.
  pose proof (retry_delay_state resp n) as Hst.
  pose proof (retry_delay_no_hang resp n) as Hnh.
  destruct (retry_delay resp n) as [[d | e |] n1]; cbn in Hst, Hnh; subst n1;
    [| discriminate | congruence].
  unfold bind at 1.
  destruct (sleep_script d n) as [Hs Hh].
  destruct (sleep d n) as [[[] | e |] n2]; cbn in Hs, Hh;
    [| discriminate | congruence].
  unfold bind at 1.
  destruct (requests_get url (Some h) p n2) as [[r | e |] n3] eqn:Hreq;
    [| discriminate |].
  - apply IH. apply requests_get_consumes in Hreq. rewrite Hs in Hreq. lia.
  - exfalso. revert Hreq. unfold requests_get, bind, emit, modify. cbn.
    destruct (script n2) as [| [r | e] rest]; discriminate.
Qed.

(** [get] always comes back, with a response or with an exception. *)
Lemma get_never_hangs url h p n : fst (get url h p n) <> Hang.
Proof.
  unfold http.get, bind.
  destruct (requests_get url _ None n) as [[r | e |] n1] eqn:Hreq.
  - apply get_loop_never_hangs. lia.
  - discriminate.
  - exfalso. revert Hreq. unfold requests_get, bind, emit, modify. cbn.
    destruct (script n) as [| [r | e] rest]; discriminate.
Qed.

(** A response that is not rate limited leaves the loop untouched. *)
Lemma get_loop_done fuel url h p resp n :
  http.rate_limited resp = false ->
  get_loop fuel url h p resp n = (Ok resp, n).
Proof. intros H. destruct fuel; cbn; now rewrite H. Qed.

(** One round of the loop: sleep for the delay, then ask again, this
    time with the caller's [params]. *)
Lemma get_loop_round fuel url h p resp d resp' rest tr :
  http.rate_limited resp = true ->
  retry_delay resp (mkNet (inl resp' :: rest) tr)
    = (Ok d, mkNet (inl resp' :: rest) tr) ->
  sleep_check d = None ->
  get_loop (S fuel) url h p resp (mkNet (inl resp' :: rest) tr)
  = get_loop fuel url h p resp'
      (mkNet rest
         (tr ++ [EvSleep d] ++ [EvRequest (mkRequest url (Some h) p)])).
Proof.
  intros Hrl Hd Hs. cbn [http.get_loop]. rewrite Hrl.
  rewrite (bind_ok _ _ _ _ _ Hd).
  unfold sleep. rewrite Hs.
  unfold bind at 1. cbn. rewrite <- app_assoc. reflexivity.
Qed.

End http_facts.

Section http_retries.

Variable USER_AGENT : string.
Variable float : string -> option pyfloat.

Lemma get_loop_plan url h p good rest :
  http.rate_limited good = false ->
  forall plan fuel tr,
    (length plan <= fuel)%nat ->
    Forall (http.waits_for float) plan ->
    http.get_loop float fuel url h p (hd good (map fst plan))
      (mkNet (map inl (tl (map fst plan ++ [good])) ++ rest) tr)
    = (Ok good, mkNet rest (tr ++ http.retries url h p plan)).
Proof.
  intros Hgood. induction plan as [| [r d] plan IH]; intros fuel tr Hlen Hall.
  - cbn. rewrite app_nil_r. now apply get_loop_done.
  - inversion Hall as [| ? ? [Hrl [Hd Hs]] Hall']; subst. cbn in Hrl, Hd, Hs.
    destruct fuel as [| fuel]; [cbn in Hlen; lia |].
    cbn [map fst hd tl app].
    assert (Hsplit : map fst plan ++ [good]
                     = hd good (map fst plan) :: tl (map fst plan ++ [good]))
      by (destruct plan; reflexivity).
    rewrite Hsplit. cbn [map app].
    rewrite (get_loop_round float fuel url h p r d); auto.
    rewrite IH; [| cbn in Hlen; lia | assumption].
    cbn [http.retries flat_map]. fold (http.retries url h p plan).
    now rewrite <- !app_assoc.
Qed.

(** X1.  However many rate-limited answers come first, [get] waits after
    each of them and returns the first answer that is not rate limited.
    The first request goes out without [params], every later one with
    them. *)
Lemma get_returns_first_good url hdrs p good rest plan tr :
  http.rate_limited good = false ->
  Forall (http.waits_for float) plan ->
  let h := <["User-Agent" := USER_AGENT]> (default ∅ hdrs) in
  http.get USER_AGENT float url hdrs p
    (mkNet (map inl (map fst plan ++ [good]) ++ rest) tr)
  = (Ok good,
     mkNet rest
       (tr ++ [EvRequest (mkRequest url (Some h) None)] ++ http.retries url h p plan)).
Proof.
  intros Hgood Hall h. unfold http.get. fold h.
  assert (Hsplit : map fst plan ++ [good]
                   = hd good (map fst plan) :: tl (map fst plan ++ [good]))
    by (destruct plan; reflexivity).
  rewrite Hsplit. cbn [map app].
  rewrite (bind_ok _ _ _ _ _ (requests_get_answer url (Some h) None _ _ tr)).
  rewrite get_loop_plan; auto.
  - now rewrite <- app_assoc.
  - cbn. rewrite length_app, !length_map.
    destruct plan; cbn; [lia |].
    rewrite length_app, length_map. cbn. lia.
Qed.

End http_retries.

(** C1.  On the answers 429 (Retry-After: 1), 429 (no Retry-After), 200,
    [get] called with [params] sends its first request without them and the
    retry with them, and then raises [KeyError] on the second 429: the 200
    that follows is never returned. *)
Theorem get_drops_params_then_raises :
  http.get run.USER_AGENT run.float run.url None (Some run.params)
    (mkNet [inl run.limited_1s; inl run.limited_bare; inl run.ok_200] [])
  = (Raise KeyError,
     mkNet [inl run.ok_200]
       [EvRequest (mkRequest run.url (Some run.sent_headers) None);
        EvSleep (FFin 1);
        EvRequest (mkRequest run.url (Some run.sent_headers) (Some run.params))])
  /\ mkRequest run.url (Some run.sent_headers) None
     <> mkRequest run.url (Some run.sent_headers) (Some run.params).
Proof. split; [vm_compute; reflexivity | discriminate]. Qed.

(** C3.  A 429 without a Retry-After header makes [get] raise [KeyError]
    before any sleep; a Retry-After that is not a number makes it sleep for
    5 and ask again. *)
Theorem get_retry_after_absent_or_invalid :
  http.get run.USER_AGENT run.float run.url None None
    (mkNet [inl run.limited_bare; inl run.ok_200] [])
  = (Raise KeyError,
     mkNet [inl run.ok_200]
       [EvRequest (mkRequest run.url (Some run.sent_headers) None)])
  /\
  http.get run.USER_AGENT run.float run.url None None
    (mkNet [inl run.limited_soon; inl run.ok_200] [])
  = (Ok run.ok_200,
     mkNet []
       [EvRequest (mkRequest run.url (Some run.sent_headers) None);
        EvSleep (FFin 5);
        EvRequest (mkRequest run.url (Some run.sent_headers) None)]).
Proof. split; vm_compute; reflexivity. Qed.

(** ** [speasy/amda/rest.py] *)

Lemma for_return_round {S A} (rounds : list unit) (body : ST S (flow A)) fb s :
  for_return (tt :: rounds) body fb s
  = match body s with
    | (Ok (Return a), s') => (Ok a, s')
    | (Ok Next, s') => for_return rounds body fb s'
    | (Raise e, s') => (Raise e, s')
    | (Hang, s') => (Hang, s')
    end.
Proof.
  cbn [for_return]. unfold bind.
  destruct (body s) as [[[a |] | e |] s']; reflexivity.
Qed.

Section rest_facts.

Variable server_url : string.

Abbreviation get_token := (rest.get_token server_url).
Abbreviation get_timetable_list := (rest.get_timetable_list server_url).
Abbreviation get_timetable := (rest.get_timetable server_url).
Abbreviation get_parameter := (rest.get_parameter server_url).

(** The loop of [get_timetable_list] never reaches a second round: its
    body returns or raises. *)
Lemma get_timetable_list_once kwargs n :
  get_timetable_list kwargs n
  = (token <- get_token ;;
     r <- requests_get
            (rest.base_url server_url "/php/rest/getTimeTablesList.php?" kwargs
             +:+ "token=" +:+ token) None None ;;
     r <- requests_get (strip (text r)) None None ;;
     ret (Some (strip (text r)))) n.
Proof.
  unfold rest.get_timetable_list, rest.three_rounds.
  rewrite for_return_round. unfold bind, ret.
  destruct (get_token n) as [[token | e |] n1]; try reflexivity.
  destruct (requests_get _ None None n1) as [[r | e |] n2]; try reflexivity.
  destruct (requests_get _ None None n2) as [[r' | e |] n3]; reflexivity.
Qed.

Lemma get_timetable_once kwargs n :
  get_timetable kwargs n
  = (token <- get_token ;;
     r <- requests_get
            (rest.base_url server_url "/php/rest/getTimeTable.php?" kwargs
             +:+ "token=" +:+ token) None None ;;
     ret (Some (strip (text r)))) n.
Proof.
  unfold rest.get_timetable, rest.three_rounds.
  rewrite for_return_round. unfold bind, ret.
  destruct (get_token n) as [[token | e |] n1]; try reflexivity.
  destruct (requests_get _ None None n1) as [[r | e |] n2]; reflexivity.
Qed.

(** The [return None] that follows the loop is out of reach. *)
Lemma get_timetable_list_not_none kwargs n :
  fst (get_timetable_list kwargs n) <> Ok None.
Proof.
  rewrite get_timetable_list_once. unfold bind, ret.
  destruct (get_token n) as [[token | e |] n1]; try discriminate.
  destruct (requests_get _ None None n1) as [[r | e |] n2]; try discriminate.
  destruct (requests_get _ None None n2) as [[r' | e |] n3]; discriminate.
Qed.

Lemma get_timetable_not_none kwargs n :
  fst (get_timetable kwargs n) <> Ok None.
Proof.
  rewrite get_timetable_once. unfold bind, ret.
  destruct (get_token n) as [[token | e |] n1]; try discriminate.
  destruct (requests_get _ None None n1) as [[r | e |] n2]; discriminate.
Qed.

(** An exception of the transport leaves [get_timetable_list] at once:
    with the network down, one request is sent and no more. *)
Lemma get_timetable_list_network_down kwargs tr :
  get_timetable_list kwargs (mkNet [] tr)
  = (Raise ConnectionError,
     mkNet [] (tr ++ [EvRequest
                        (mkRequest (server_url +:+ "/php/rest/auth.php?")
                           None None)])).
Proof. rewrite get_timetable_list_once. reflexivity. Qed.

Lemma get_token_answer t rest tr :
  get_token (mkNet (inl t :: rest) tr)
  = (Ok (text t),
     mkNet rest
       (tr ++ [EvRequest (mkRequest (server_url +:+ "/php/rest/auth.php?")
                            None None)])).
Proof. reflexivity. Qed.

(** One failed round of [get_parameter] goes on to the next round. *)
Lemma get_parameter_failed_round rounds kwargs t a rest tr :
  rest.failed_answer a ->
  for_return (tt :: rounds)
    (token <- get_token ;;
     r <- requests_get
            (rest.base_url server_url "/php/rest/getParameter.php?" kwargs
             +:+ "token=" +:+ token) None None ;;
     js <- lift_outcome (json_of r) ;;
     ok <- lift_outcome (rest.succeeded js) ;;
     if ok then
       urls <- lift_outcome (json_getitem "dataFileURLs" js) ;;
       ret (Return urls)
     else ret Next)
    JNull (mkNet (inl t :: inl a :: rest) tr)
  = for_return rounds
    (token <- get_token ;;
     r <- requests_get
            (rest.base_url server_url "/php/rest/getParameter.php?" kwargs
             +:+ "token=" +:+ token) None None ;;
     js <- lift_outcome (json_of r) ;;
     ok <- lift_outcome (rest.succeeded js) ;;
     if ok then
       urls <- lift_outcome (json_getitem "dataFileURLs" js) ;;
       ret (Return urls)
     else ret Next)
    JNull
    (mkNet rest (tr ++ rest.parameter_round server_url kwargs t)).
Proof.
  intros (js & Hjs & Hfail). rewrite for_return_round.
  rewrite (bind_ok _ _ _ _ _ (get_token_answer t _ tr)).
  rewrite (bind_ok _ _ _ _ _ (requests_get_answer _ None None a rest _)).
  unfold bind at 1. unfold lift_outcome at 1, json_of. rewrite Hjs.
  unfold bind at 1. unfold lift_outcome at 1. rewrite Hfail.
  unfold ret. unfold rest.parameter_round. now rewrite <- app_assoc.
Qed.

(** Three failed answers: three rounds, six requests, and [None]. *)
Lemma get_parameter_three_failures kwargs t1 a1 t2 a2 t3 a3 rest tr :
  rest.failed_answer a1 -> rest.failed_answer a2 -> rest.failed_answer a3 ->
  get_parameter kwargs
    (mkNet (inl t1 :: inl a1 :: inl t2 :: inl a2 :: inl t3 :: inl a3 :: rest) tr)
  = (Ok JNull,
     mkNet rest
       (tr ++ rest.parameter_round server_url kwargs t1
           ++ rest.parameter_round server_url kwargs t2
           ++ rest.parameter_round server_url kwargs t3)).
Proof.
  intros H1 H2 H3. unfold rest.get_parameter, rest.three_rounds.
  rewrite get_parameter_failed_round by assumption.
  rewrite get_parameter_failed_round by assumption.
  rewrite get_parameter_failed_round by assumption.
  cbn [for_return]. unfold ret. now rewrite <- !app_assoc.
Qed.

Lemma succeeded_true js :
  rest.succeeded js = Ok true ->
  exists urls, json_getitem "dataFileURLs" js = Ok urls.
Proof.
  unfold rest.succeeded.
  destruct js as [| b | q | s | l | o]; cbn; try discriminate.
  - destruct (str_contains "success" s); discriminate.
  - destruct (existsb (json_is_str "success") l); discriminate.
  - case_bool_decide as Hin; [| discriminate].
    destruct (o !! "success") as [v |]; [| discriminate].
    destruct (json_is_true v); [| discriminate].
    case_bool_decide as Hurls; [| discriminate].
    destruct Hurls as [urls Hurls]. intros _. exists urls. now rewrite Hurls.
Qed.


End rest_facts.

(** C4.  With the network down, [get_timetable_list] sends one request and
    lets the exception through: there is no second attempt and no [None].
    When the first attempt breaks at its second request and the service is
    back at once, the exception goes through all the same and the answers
    that would have served a second attempt are left unread.  When the
    service answers every request with an error page, [get_timetable]
    returns the page of its first attempt.  Whatever the network does,
    neither [get_timetable_list] nor [get_timetable] ever returns [None]. *)
Theorem get_timetable_list_gives_up_at_once :
  rest.get_timetable_list run.server_url [] (mkNet [] [])
  = (Raise ConnectionError,
     mkNet []
       [EvRequest (mkRequest "http://amda.irap.omp.eu/php/rest/auth.php?" None None)])
  /\
  rest.get_timetable_list run.server_url [] (mkNet run.recovering_script [])
  = (Raise ConnectionError,
     mkNet
       [inl (run.answer "token");
        inl (run.answer " http://amda.irap.omp.eu/data/tt.xml ");
        inl (run.answer "<timetabList>...</timetabList>")]
       [EvRequest (mkRequest "http://amda.irap.omp.eu/php/rest/auth.php?" None None);
        EvRequest
          (mkRequest
             "http://amda.irap.omp.eu/php/rest/getTimeTablesList.php?token=token"
             None None)])
  /\
  fst (rest.get_timetable run.server_url [("ttID", "tt_0")]
         (mkNet run.failing_script []))
  = Ok (Some "Internal Server Error")
  /\
  length (script (snd (rest.get_timetable run.server_url [("ttID", "tt_0")]
                         (mkNet run.failing_script []))))
  = 4%nat
  /\ (forall kwargs n,
        fst (rest.get_timetable_list run.server_url kwargs n) <> Ok None)
  /\ (forall kwargs n,
        fst (rest.get_timetable run.server_url kwargs n) <> Ok None).
Proof.
  split; [reflexivity |]. split; [vm_compute; reflexivity |].
  split; [vm_compute; reflexivity |]. split; [vm_compute; reflexivity |].
  split; intros kwargs n.
  - apply get_timetable_list_not_none.
  - apply get_timetable_not_none.
Qed.

(** ** [speasy/amda/amda.py]: the catalog *)

Lemma elem_of_first_keys {V} (l : list (string * V)) k :
  k ∈ first_keys l <-> is_Some (assoc k l).
Proof.
  induction l as [| [k' v] l IH]; cbn [first_keys assoc].
  - rewrite elem_of_nil. split; [easy | now intros [? ?]].
  - rewrite elem_of_cons, list_elem_of_In, List.filter_In, <- list_elem_of_In, IH.
    destruct (String.eqb_spec k' k) as [-> | Hne].
    + split; eauto.
    + split.
      * intros [-> | [H _]]; [contradiction | assumption].
      * intros H. right. split; [assumption |].
        apply negb_true_iff, String.eqb_neq. congruence.
Qed.

Lemma NoDup_first_keys {V} (l : list (string * V)) : NoDup (first_keys l).
Proof.
  induction l as [| [k v] l IH]; cbn [first_keys]; [constructor |].
  constructor.
  - rewrite list_elem_of_In, List.filter_In. intros [_ H].
    now rewrite String.eqb_refl in H.
  - now apply NoDup_ListNoDup, List.NoDup_filter, NoDup_ListNoDup.
Qed.

Lemma dict_elem_of_dom {V} (d : dict V) k : k ∈ dom d <-> is_Some (d !! k).
Proof.
  unfold dom, dict_dom. rewrite elem_of_list_to_set. apply elem_of_first_keys.
Qed.

Lemma dict_not_elem_of_dom {V} (d : dict V) k : k ∉ dom d <-> d !! k = None.
Proof. now rewrite dict_elem_of_dom, eq_None_not_Some. Qed.

Lemma dict_size_lookup {V} (d : dict V) k v :
  d !! k = Some v -> size d <> 0%nat.
Proof.
  intros H. assert (Hin : k ∈ first_keys (entries d))
    by (apply elem_of_first_keys; eauto).
  unfold size, dict_size. destruct (first_keys (entries d)); [| discriminate].
  now apply elem_of_nil in Hin.
Qed.

Lemma contains_true {V} (d : dict V) k :
  contains d k = true <-> k ∈ dom d.
Proof.
  unfold contains. rewrite bool_decide_eq_true. symmetry. apply dict_elem_of_dom.
Qed.

Lemma contains_false {V} (d : dict V) k :
  contains d k = false <-> k ∉ dom d.
Proof.
  unfold contains. rewrite bool_decide_eq_false. now rewrite dict_elem_of_dom.
Qed.

Lemma contains_lookup {V} (d : dict V) k v :
  d !! k = Some v -> contains d k = true.
Proof. intros H. apply contains_true, dict_elem_of_dom. eauto. Qed.

Lemma contains_lookup_None {V} (d : dict V) k :
  d !! k = None -> contains d k = false.
Proof. intros H. apply contains_false. now apply dict_not_elem_of_dom. Qed.

Lemma elem_of_keys {V} (d : dict V) k :
  k ∈ keys d <-> is_Some (d !! k).
Proof. apply elem_of_first_keys. Qed.

Lemma NoDup_keys {V} (d : dict V) : NoDup (keys d).
Proof. apply NoDup_first_keys. Qed.

(** C5.  [get_product_type] looks the id up in the dataset mapping, then
    in the parameter mapping, then in the component mapping, and answers
    with the first that has it; an id none of them has is UNKNOWN.  The
    function is total: it has no way to raise. *)
Theorem get_product_type_first_match (self : Inventory) (product_id : string) :
  (product_id ∈ dom (dataset self) ->
   amda.get_product_type self product_id = DATASET) /\
  (product_id ∉ dom (dataset self) -> product_id ∈ dom (parameter self) ->
   amda.get_product_type self product_id = PARAMETER) /\
  (product_id ∉ dom (dataset self) -> product_id ∉ dom (parameter self) ->
   product_id ∈ dom (component self) ->
   amda.get_product_type self product_id = COMPONENT) /\
  (product_id ∉ dom (dataset self) -> product_id ∉ dom (parameter self) ->
   product_id ∉ dom (component self) ->
   amda.get_product_type self product_id = UNKNOWN).
Proof.
  unfold amda.get_product_type.
  repeat split;
    repeat match goal with
      | |- _ ∈ dom _ -> _ => intros ?%contains_true
      | |- _ ∉ dom _ -> _ => intros ?%contains_false
      end;
    repeat match goal with H : contains _ _ = _ |- _ => rewrite H; clear H end;
    reflexivity.
Qed.

(** The three kinds of answer on the catalog of the runs. *)
Lemma get_product_type_first_match_run :
  amda.get_product_type run.catalog "ace-imf-all" = DATASET /\
  amda.get_product_type run.catalog "imf" = PARAMETER /\
  amda.get_product_type run.catalog "nothing" = UNKNOWN.
Proof.
  destruct (get_product_type_first_match run.catalog "ace-imf-all") as (H1 & _).
  destruct (get_product_type_first_match run.catalog "imf") as (_ & H2 & _).
  destruct (get_product_type_first_match run.catalog "nothing") as (_ & _ & _ & H4).
  split; [| split].
  - apply H1, dict_elem_of_dom. exists run.ace_imf_all. reflexivity.
  - apply H2.
    + now apply dict_not_elem_of_dom.
    + apply dict_elem_of_dom. exists run.imf. reflexivity.
  - apply H4; now apply dict_not_elem_of_dom.
Defined.

(** The comprehension keeps the keys whose record names the dataset, as
    long as every record it meets has a back-reference to read. *)
Lemma parameters_of_filter (self : Inventory) (d : string) (ks : list string) :
  (forall k, k ∈ ks ->
     exists p, parameter self !! k = Some p /\ is_Some (p !! "dataset")) ->
  amda.parameters_of self d ks = Ok (List.filter (amda.owned_by self d) ks).
Proof.
  induction ks as [| k ks IH]; intros Hwf; [reflexivity |].
  destruct (Hwf k) as (p & Hp & name & Hname); [left |].
  cbn [amda.parameters_of List.filter]. unfold getitem, amda.owned_by.
  rewrite Hp. cbn. rewrite Hname. cbn.
  rewrite IH; [| intros k' Hk'; apply Hwf; now right]. cbn.
  now destruct (String.eqb name d).
Qed.

(** A record without back-reference stops the comprehension. *)
Lemma parameters_of_raises (self : Inventory) (d : string) (ks : list string) :
  (forall k, k ∈ ks -> is_Some (parameter self !! k)) ->
  (exists k p, k ∈ ks /\ parameter self !! k = Some p /\ p !! "dataset" = None) ->
  amda.parameters_of self d ks = Raise KeyError.
Proof.
  induction ks as [| k ks IH]; intros Hin (k0 & p0 & Hk0 & Hp0 & Hnone).
  - inversion Hk0.
  - cbn [amda.parameters_of]. unfold getitem.
    destruct (Hin k) as [p Hp]; [left |]. rewrite Hp. cbn.
    destruct (p !! "dataset") as [name |] eqn:Hname; cbn; [| reflexivity].
    rewrite IH; [reflexivity | intros k' Hk'; apply Hin; now right |].
    exists k0, p0. split; [| now split].
    apply elem_of_cons in Hk0 as [-> | Hk0]; [congruence | assumption].
Qed.

Lemma owned_by_true (self : Inventory) (d k : string) :
  amda.owned_by self d k = true <->
  exists p, parameter self !! k = Some p /\ p !! "dataset" = Some d.
Proof.
  unfold amda.owned_by. split.
  - destruct (parameter self !! k) as [p |]; [| discriminate].
    destruct (p !! "dataset") as [name |] eqn:Hname; [| discriminate].
    intros ->%String.eqb_eq. eauto.
  - intros (p & -> & ->). apply String.eqb_refl.
Qed.

(** The keys of a dictionary that holds no key twice are those of its
    entries, in their order. *)
Lemma first_keys_NoDup {V} (l : list (string * V)) :
  NoDup l.*1 -> first_keys l = l.*1.
Proof.
  induction l as [| [k v] l IH]; [reflexivity |].
  cbn [first_keys fmap list_fmap fst]. intros [Hk Hl]%NoDup_cons.
  rewrite (IH Hl). f_equal. clear IH Hl.
  induction (l.*1) as [| k' ks IH]; [reflexivity |].
  apply not_elem_of_cons in Hk as [Hne Hk]. cbn [List.filter].
  destruct (String.eqb_spec k' k) as [-> | _]; [contradiction |].
  cbn [negb]. now rewrite (IH Hk).
Qed.

(** C8.  [list_parameters] without a filter returns the keys of the
    parameter mapping, each once and in the order of insertion.  With a
    dataset id [d], in a catalog whose parameter records all carry their
    [dataset] back-reference, it returns, each once, the ids of the
    parameters whose back-reference is [d] and no other id: a parameter
    owned by [d] is then in the list for [d].  In a catalog with a
    parameter record that has no back-reference, it raises [KeyError]
    for every [d]. *)
Theorem list_parameters_exact (self : Inventory) :
  (exists l,
     amda.list_parameters self None = Ok l /\
     NoDup l /\
     (forall k, k ∈ l <-> k ∈ dom (parameter self)) /\
     (NoDup (entries (parameter self)).*1 -> l = (entries (parameter self)).*1)) /\
  ((forall k p, parameter self !! k = Some p -> is_Some (p !! "dataset")) ->
   forall d, exists l,
     amda.list_parameters self (Some d) = Ok l /\
     NoDup l /\
     (forall k, k ∈ l <->
        exists p, parameter self !! k = Some p /\ p !! "dataset" = Some d)) /\
  ((exists k p, parameter self !! k = Some p /\ p !! "dataset" = None) ->
   forall d, amda.list_parameters self (Some d) = Raise KeyError).
Proof.
  split; [| split].
  - exists (keys (parameter self)). split; [reflexivity |].
    split; [apply NoDup_keys |]. split.
    + intros k. now rewrite elem_of_keys, dict_elem_of_dom.
    + apply first_keys_NoDup.
  - intros Hwf d.
    exists (List.filter (amda.owned_by self d) (keys (parameter self))).
    split; [| split].
    + apply parameters_of_filter. intros k [p Hp]%elem_of_keys. eauto.
    + apply NoDup_ListNoDup, List.NoDup_filter, NoDup_ListNoDup, NoDup_keys.
    + intros k. rewrite list_elem_of_In, List.filter_In, <- list_elem_of_In.
      rewrite owned_by_true, elem_of_keys. split.
      * now intros [_ H].
      * intros (p & Hp & Hd). split; eauto.
  - intros (k & p & Hk & Hp) d. apply parameters_of_raises.
    + intros k' Hk'. now apply elem_of_keys.
    + exists k, p. split; [apply elem_of_keys; eauto | now split].
Qed.

(** The parameters of the catalog of the runs, all and by dataset, and
    those of a catalog with a record that names no dataset. *)
Lemma list_parameters_exact_run :
  amda.list_parameters run.catalog None = Ok ["imf"] /\
  (exists l, amda.list_parameters run.catalog (Some "ace-imf-all") = Ok l /\
             "imf" ∈ l) /\
  amda.list_parameters run.orphan_catalog (Some "wind-mfi") = Raise KeyError.
Proof.
  assert (Hwf : forall k p, parameter run.catalog !! k = Some p ->
                            is_Some (p !! "dataset")).
  { intros k p Hp.
    change (parameter run.catalog !! k)
      with (if String.eqb "imf" k then Some run.imf else None) in Hp.
    destruct (String.eqb "imf" k); [| discriminate].
    injection Hp as <-. vm_compute. eauto. }
  destruct (list_parameters_exact run.catalog) as ((l0 & Hall & _ & _ & Hord) & Hsome & _).
  destruct (list_parameters_exact run.orphan_catalog) as (_ & _ & Hraise).
  split; [| split].
  - rewrite Hall. f_equal. apply Hord. cbn. apply NoDup_singleton.
  - destruct (Hsome Hwf "ace-imf-all") as (l & Hl & _ & Hmem).
    exists l. split; [exact Hl |].
    apply Hmem. exists run.imf. split; reflexivity.
  - apply Hraise. exists "orphan", ∅. split; reflexivity.
Defined.

(** C8, as stated, fails: in a catalog that also holds a parameter record
    without back-reference, [imf] is a parameter whose back-reference is
    [ace-imf-all], yet [list_parameters("ace-imf-all")] returns no list
    that could have [imf] in it: it raises [KeyError]. *)
Lemma list_parameters_orphan_raises :
  (exists p, parameter run.orphan_catalog !! "imf" = Some p /\
             p !! "dataset" = Some "ace-imf-all") /\
  amda.ownerDataset run.orphan_catalog "imf" = Some "ace-imf-all" /\
  amda.list_parameters run.orphan_catalog (Some "ace-imf-all") = Raise KeyError /\
  (forall l, amda.list_parameters run.orphan_catalog (Some "ace-imf-all") <> Ok l).
Proof.
  assert (Hraise : amda.list_parameters run.orphan_catalog (Some "ace-imf-all")
                   = Raise KeyError) by reflexivity.
  split; [exists run.imf; split; reflexivity |].
  split; [reflexivity |]. split; [exact Hraise |].
  intros l. rewrite Hraise. discriminate.
Qed.

(** ** [speasy/amda/amda.py]: ranges, versions and the inventory *)

Lemma product_version_ok (self : Inventory) (parameter_id v : string) :
  amda.product_version self parameter_id = Ok v <->
  exists p name d,
    parameter self !! parameter_id = Some p /\ p !! "dataset" = Some name /\
    dataset self !! name = Some d /\ d !! "lastUpdate" = Some v.
Proof.
  unfold amda.product_version, getitem, obind. split.
  - destruct (parameter self !! parameter_id) as [p |] eqn:Hp; [| discriminate].
    destruct (p !! "dataset") as [name |] eqn:Hname; [| discriminate].
    destruct (dataset self !! name) as [d |] eqn:Hd; [| discriminate].
    destruct (d !! "lastUpdate") as [v' |] eqn:Hv; [| discriminate].
    intros [= ->]. exists p, name, d. auto.
  - intros (p & name & d & -> & -> & -> & ->). reflexivity.
Qed.

Lemma product_version_raises (self : Inventory) (parameter_id : string) :
  returned (amda.product_version self parameter_id) = false ->
  amda.product_version self parameter_id = Raise KeyError.
Proof.
  unfold amda.product_version, getitem, obind.
  destruct (parameter self !! parameter_id) as [p |]; [| reflexivity].
  destruct (p !! "dataset") as [name |]; [| reflexivity].
  destruct (dataset self !! name) as [d |]; [| reflexivity].
  destruct (d !! "lastUpdate") as [v' |]; [discriminate | reflexivity].
Qed.

Lemma ownerDataset_resolve {datetime} (strptime : string -> string -> option datetime)
    (self : Inventory) (id ds : string) :
  amda.ownerDataset self id = Some ds ->
  amda.resolve_range datetime strptime self id
  = amda.dataset_range datetime strptime self ds.
Proof.
  unfold amda.ownerDataset, amda.resolve_range, getitem.
  destruct (amda.get_product_type self id); try discriminate.
  - now intros [= ->].
  - destruct (parameter self !! id) as [p |]; [| discriminate]. cbn.
    now intros ->.
  - destruct (component self !! id) as [c |]; [| discriminate]. cbn.
    now intros ->.
Qed.

Lemma only_net_on_net {A} (c : ST Net A) : only_net (on_net c).
Proof. intros w. unfold on_net. now destruct (c (net w)). Qed.

Lemma only_net_pure {A} (c : ST World A) :
  (forall w, snd (c w) = w) -> only_net c.
Proof. intros H w. rewrite H. now destruct w. Qed.

Lemma only_net_bind {A B} (c : ST World A) (k : A -> ST World B) :
  only_net c -> (forall a, only_net (k a)) -> only_net (bind c k).
Proof.
  intros Hc Hk w. unfold bind. specialize (Hc w).
  destruct (c w) as [[a | e |] w1]; cbn in *; try assumption.
  rewrite (Hk a w1), Hc. reflexivity.
Qed.

Lemma only_net_of_option {A} e (o : option A) : only_net (of_option e o).
Proof. apply only_net_pure. now destruct o. Qed.

Section amda_facts.

Variable server_url : string.
Variable Tree : Type.
Variable xmltodict_parse : string -> option Tree.
Variable obs_extrac_all : Tree -> Inventory -> outcome unit * Inventory.
Variable tt_extrac_all : Tree -> Inventory -> outcome unit * Inventory.
Variable soap_get_obs_data_tree : ST Net string.
Variable datetime : Type.
Variable strptime : string -> string -> option datetime.
Variable str_float : Z -> string.
Variable load_csv : Json -> ST Net Series.
Variable Proxyfiable :
  (string -> Z -> Z -> ST Net (option Series)) ->
  string -> Z -> Z -> ST Net (option Series).

Abbreviation update_inventory :=
  (amda.update_inventory server_url Tree xmltodict_parse obs_extrac_all
     tt_extrac_all soap_get_obs_data_tree).
Abbreviation parameter_range :=
  (amda.parameter_range server_url Tree xmltodict_parse obs_extrac_all
     tt_extrac_all soap_get_obs_data_tree datetime strptime).
Abbreviation resolve_range := (amda.resolve_range datetime strptime).
Abbreviation dataset_range := (amda.dataset_range datetime strptime).
Abbreviation get_data :=
  (amda.get_data server_url str_float load_csv Proxyfiable).

(** The first two lines of [parameter_range], then the rest. *)
Lemma parameter_range_unfold parameter_id w :
  parameter_range parameter_id w
  = bind (if (size (parameter (inv w)) =? 0)%nat then update_inventory
          else ret tt)
      (fun _ w1 => (resolve_range (inv w1) parameter_id, w1)) w.
Proof. reflexivity. Qed.

Lemma dataset_range_unrecorded self ds :
  dataset self !! ds = None -> dataset_range self ds = Ok None.
Proof.
  intros H. unfold amda.dataset_range. now rewrite (contains_lookup_None _ _ H).
Qed.

Lemma dataset_range_window self ds d a b ta tb :
  dataset self !! ds = Some d ->
  d !! "dataStart" = Some a -> d !! "dataStop" = Some b ->
  strptime a "%Y-%m-%dT%H:%M:%SZ" = Some ta ->
  strptime b "%Y-%m-%dT%H:%M:%SZ" = Some tb ->
  dataset_range self ds = Ok (Some (amda.mkDateTimeRange datetime ta tb)).
Proof.
  intros Hd Ha Hb Hta Htb. unfold amda.dataset_range, getitem.
  rewrite (contains_lookup _ _ _ Hd), Hd. cbn.
  rewrite Ha. cbn. rewrite Hta. cbn. rewrite Hb. cbn. now rewrite Htb.
Qed.

Lemma dataset_range_no_start self ds d :
  dataset self !! ds = Some d -> d !! "dataStart" = None ->
  dataset_range self ds = Raise KeyError.
Proof.
  intros Hd Ha. unfold amda.dataset_range, getitem.
  rewrite (contains_lookup _ _ _ Hd), Hd. cbn. now rewrite Ha.
Qed.

(** C6, as amended.  Once the inventory is there, [parameter_range]
    returns [None] for an id that is no product and for an id whose owning
    dataset is not a key of the dataset mapping; it returns the window,
    parsed, when the owning dataset is recorded with a [dataStart] and a
    [dataStop] that parse; and it raises [KeyError] when the owning dataset
    is recorded without [dataStart]. *)
Theorem parameter_range_of_owner (parameter_id : string) (w w1 : World) :
  (if (size (parameter (inv w)) =? 0)%nat then update_inventory else ret tt) w
  = (Ok tt, w1) ->
  (amda.get_product_type (inv w1) parameter_id = UNKNOWN ->
   parameter_range parameter_id w = (Ok None, w1)) /\
  (forall ds,
     amda.ownerDataset (inv w1) parameter_id = Some ds ->
     dataset (inv w1) !! ds = None ->
     parameter_range parameter_id w = (Ok None, w1)) /\
  (forall ds d a b ta tb,
     amda.ownerDataset (inv w1) parameter_id = Some ds ->
     dataset (inv w1) !! ds = Some d ->
     d !! "dataStart" = Some a -> d !! "dataStop" = Some b ->
     strptime a "%Y-%m-%dT%H:%M:%SZ" = Some ta ->
     strptime b "%Y-%m-%dT%H:%M:%SZ" = Some tb ->
     parameter_range parameter_id w
     = (Ok (Some (amda.mkDateTimeRange datetime ta tb)), w1)) /\
  (forall ds d,
     amda.ownerDataset (inv w1) parameter_id = Some ds ->
     dataset (inv w1) !! ds = Some d -> d !! "dataStart" = None ->
     parameter_range parameter_id w = (Raise KeyError, w1)).
Proof.
  intros Hinv. rewrite parameter_range_unfold, (bind_ok _ _ _ _ _ Hinv).
  repeat split.
  - intros Hu. unfold amda.resolve_range. now rewrite Hu.
  - intros ds Ho Hd. f_equal.
    rewrite (ownerDataset_resolve _ _ _ _ Ho). now apply dataset_range_unrecorded.
  - intros ds d a b ta tb Ho Hd Ha Hb Hta Htb. f_equal.
    rewrite (ownerDataset_resolve _ _ _ _ Ho).
    now apply (dataset_range_window _ _ d a b).
  - intros ds d Ho Hd Ha. f_equal.
    rewrite (ownerDataset_resolve _ _ _ _ Ho).
    now apply (dataset_range_no_start _ _ d).
Qed.

(** C9, as amended.  [product_version] returns exactly when its argument
    is a key of the parameter mapping, that record has a [dataset]
    back-reference, the back-reference is a key of the dataset mapping and
    that record has a [lastUpdate]; it then returns this [lastUpdate].  On
    any other id it raises [KeyError], and so does [get_data], before it
    reads or fetches anything. *)
Theorem product_version_defined (self : Inventory) (parameter_id : string) :
  (forall v,
     amda.product_version self parameter_id = Ok v <->
     exists p name d,
       parameter self !! parameter_id = Some p /\ p !! "dataset" = Some name /\
       dataset self !! name = Some d /\ d !! "lastUpdate" = Some v) /\
  (returned (amda.product_version self parameter_id) = false ->
   amda.product_version self parameter_id = Raise KeyError) /\
  (returned (amda.product_version self parameter_id) = false ->
   forall w start stop,
     inv w = self ->
     get_data parameter_id start stop w = (Raise KeyError, w)) /\
  (parameter_id ∉ dom (parameter self) ->
   returned (amda.product_version self parameter_id) = false).
Proof.
  split; [intros v; apply product_version_ok |].
  split; [apply product_version_raises |].
  split.
  - intros Hr w start stop <-.
    unfold amda.get_data, cache.Cacheable, bind, gets, lift_outcome.
    now rewrite (product_version_raises _ _ Hr).
  - intros Hnot%dict_not_elem_of_dom.
    unfold amda.product_version, getitem. now rewrite Hnot.
Qed.

Abbreviation get_obs_data_tree :=
  (amda.get_obs_data_tree Tree xmltodict_parse soap_get_obs_data_tree).
Abbreviation get_timetable_tree :=
  (amda.get_timetable_tree server_url Tree xmltodict_parse).

Lemma get_obs_data_tree_only_net : only_net get_obs_data_tree.
Proof.
  unfold amda.get_obs_data_tree.
  repeat (apply only_net_bind; [apply only_net_on_net | intros ?]).
  apply only_net_of_option.
Qed.

Lemma get_timetable_tree_only_net : only_net get_timetable_tree.
Proof.
  unfold amda.get_timetable_tree.
  apply only_net_bind; [apply only_net_on_net | intros [ttt |]].
  - apply only_net_of_option.
  - now apply only_net_pure.
Qed.

Lemma on_inv_ok {A} (c : Inventory -> outcome A * Inventory) w a w' :
  on_inv c w = (Ok a, w') ->
  c (inv w) = (Ok a, inv w') /\ w' = set_inv (inv w') w.
Proof.
  unfold on_inv. destruct (c (inv w)) as [r i]. intros [= -> <-]. now split.
Qed.

(** What a completed [update_inventory] has done: two trees fetched, both
    extracted into the mappings of [self], and the result saved as
    ['AMDA/inventory'] for seven days.  The fragment store is not touched. *)
Lemma update_inventory_ok w w1 :
  update_inventory w = (Ok tt, w1) ->
  exists tree wa i1 tttree wb,
    get_obs_data_tree w = (Ok tree, wa) /\
    obs_extrac_all tree (inv w) = (Ok tt, i1) /\
    get_timetable_tree (set_inv i1 wa) = (Ok tttree, wb) /\
    tt_extrac_all tttree i1 = (Ok tt, inv w1) /\
    cache w1 = <["AMDA/inventory" := (inv w1, 7 * 24 * 60 * 60)]> (cache w) /\
    store w1 = store w /\ store_log w1 = store_log w /\ net w1 = net wb.
Proof.
  unfold amda.update_inventory. intros H.
  apply bind_inv_ok in H as (tree & wa & Ha & H).
  apply bind_inv_ok in H as ([] & wa' & Hobs & H).
  apply bind_inv_ok in H as (tttree & wb & Hb & H).
  apply bind_inv_ok in H as ([] & wb' & Htt & H).
  apply bind_inv_ok in H as (storage & wc & Hst & H).
  apply on_inv_ok in Hobs as [Hobs Hwa'], Htt as [Htt Hwb'].
  pose proof (get_obs_data_tree_only_net w) as Fa. rewrite Ha in Fa. cbn in Fa.
  pose proof (get_timetable_tree_only_net wa') as Fb. rewrite Hb in Fb. cbn in Fb.
  unfold gets in Hst. injection Hst as <- <-.
  unfold amda.cache_set, modify in H. injection H as <-.
  assert (Hia : inv wa = inv w) by (rewrite Fa; reflexivity).
  assert (Hib : inv wb = inv wa') by (rewrite Fb; reflexivity).
  exists tree, wa, (inv wa'), tttree, wb. cbn.
  rewrite <- Hia. split; [assumption |]. split; [assumption |].
  rewrite <- Hwa'. split; [assumption |].
  rewrite <- Hib. split; [assumption |].
  unfold amda._pack_inventory.
  rewrite Hwb'. cbn. rewrite Fb. cbn. rewrite Hwa'. cbn. rewrite Fa. cbn.
  repeat split; reflexivity.
Qed.

(** C10.  With an empty parameter mapping, [parameter_range] runs
    [update_inventory] first and resolves the id against what it built:
    when the update completes, both trees have been fetched and extracted
    into the mappings and the snapshot is under ['AMDA/inventory'] with an
    expiry of 7*24*60*60.  With a parameter mapping that is not empty it
    resolves the id at once and leaves the whole state, mappings, caches
    and network, as it was. *)
Theorem parameter_range_inventory (parameter_id : string) (w : World) :
  (size (parameter (inv w)) = 0%nat ->
   parameter_range parameter_id w
   = bind update_inventory
       (fun _ w1 => (resolve_range (inv w1) parameter_id, w1)) w /\
   forall w1,
     update_inventory w = (Ok tt, w1) ->
     parameter_range parameter_id w = (resolve_range (inv w1) parameter_id, w1) /\
     cache w1 !! "AMDA/inventory" = Some (inv w1, 7 * 24 * 60 * 60) /\
     exists tree wa i1 tttree wb,
       get_obs_data_tree w = (Ok tree, wa) /\
       obs_extrac_all tree (inv w) = (Ok tt, i1) /\
       get_timetable_tree (set_inv i1 wa) = (Ok tttree, wb) /\
       tt_extrac_all tttree i1 = (Ok tt, inv w1)) /\
  (size (parameter (inv w)) <> 0%nat ->
   parameter_range parameter_id w = (resolve_range (inv w) parameter_id, w)).
Proof.
  split.
  - intros Hsize. rewrite parameter_range_unfold, Hsize. cbn [Nat.eqb].
    split; [reflexivity |]. intros w1 Hup.
    split; [now rewrite (bind_ok _ _ _ _ _ Hup) |].
    destruct (update_inventory_ok _ _ Hup)
      as (tree & wa & i1 & tttree & wb & Ha & Hobs & Hb & Htt & Hc & _).
    split; [rewrite Hc; apply lookup_insert_eq |].
    now exists tree, wa, i1, tttree, wb.
  - intros Hsize. rewrite parameter_range_unfold.
    destruct (size (parameter (inv w))) as [| n]; [congruence |]. reflexivity.
Qed.

End amda_facts.

(** The range of [imf] is the window of its dataset. *)
Lemma parameter_range_of_owner_run :
  amda.parameter_range run.server_url run.Tree run.xmltodict_parse
    run.obs_extrac_all run.tt_extrac_all run.soap_get_obs_data_tree
    run.datetime run.strptime "imf" (run.world_of run.catalog [])
  = (Ok (Some (amda.mkDateTimeRange run.datetime
                 (run.mkDatetime 2000 1 1 0 0 0) (run.mkDatetime 2000 1 2 0 0 0))),
     run.world_of run.catalog []).
Proof.
  destruct (parameter_range_of_owner run.server_url run.Tree run.xmltodict_parse
              run.obs_extrac_all run.tt_extrac_all run.soap_get_obs_data_tree
              run.datetime run.strptime "imf"
              (run.world_of run.catalog []) (run.world_of run.catalog [])
              eq_refl) as (_ & _ & H & _).
  apply (H "ace-imf-all" run.ace_imf_all
           "2000-01-01T00:00:00Z" "2000-01-02T00:00:00Z"); reflexivity.
Defined.

(** C6, as stated, fails: the dataset [ace-imf-all] is recorded without a
    range, it owns itself and it owns [imf], and [parameter_range] raises
    [KeyError] on both ids where the claim has it return [None]. *)
Lemma parameter_range_without_range_raises :
  dataset run.bare_catalog !! "ace-imf-all" = Some ∅ /\
  amda.ownerDataset run.bare_catalog "ace-imf-all" = Some "ace-imf-all" /\
  amda.ownerDataset run.bare_catalog "imf" = Some "ace-imf-all" /\
  amda.parameter_range run.server_url run.Tree run.xmltodict_parse
    run.obs_extrac_all run.tt_extrac_all run.soap_get_obs_data_tree
    run.datetime run.strptime "ace-imf-all" (run.world_of run.bare_catalog [])
  = (Raise KeyError, run.world_of run.bare_catalog []) /\
  amda.parameter_range run.server_url run.Tree run.xmltodict_parse
    run.obs_extrac_all run.tt_extrac_all run.soap_get_obs_data_tree
    run.datetime run.strptime "imf" (run.world_of run.bare_catalog [])
  = (Raise KeyError, run.world_of run.bare_catalog []).
Proof. repeat split; vm_compute; reflexivity. Qed.

(** The version of [imf] is the [lastUpdate] of its dataset; the dataset
    id itself has no version, and [get_data] raises on it. *)
Lemma product_version_defined_run :
  amda.product_version run.catalog "imf" = Ok "2021-06-01T12:00:00Z" /\
  amda.get_data run.server_url run.str_float run.load_csv run.Proxyfiable
    "ace-imf-all" run.t0 run.t12 (run.world_of run.catalog [])
  = (Raise KeyError, run.world_of run.catalog []).
Proof.
  destruct (product_version_defined run.server_url run.str_float run.load_csv
              run.Proxyfiable run.catalog "imf") as (Hok & _).
  destruct (product_version_defined run.server_url run.str_float run.load_csv
              run.Proxyfiable run.catalog "ace-imf-all") as (_ & _ & Hget & Hnot).
  split.
  - apply Hok. exists run.imf, "ace-imf-all", run.ace_imf_all.
    repeat split; reflexivity.
  - apply Hget; [| reflexivity]. apply Hnot. now apply dict_not_elem_of_dom.
Defined.

(** C9, as stated, fails: [imf] is a key of the parameter mapping and its
    back-reference [ace-imf-all] is a key of the dataset mapping, yet
    [product_version] raises [KeyError], the dataset having no
    [lastUpdate]. *)
Lemma product_version_without_marker_raises :
  (exists p, parameter run.bare_catalog !! "imf" = Some p /\
             p !! "dataset" = Some "ace-imf-all") /\
  is_Some (dataset run.bare_catalog !! "ace-imf-all") /\
  amda.product_version run.bare_catalog "imf" = Raise KeyError.
Proof.
  split; [exists run.imf; split; reflexivity |].
  split; [exists ∅; reflexivity | reflexivity].
Qed.

(** From empty mappings [parameter_range] first builds the inventory, with
    four requests; asked again, it leaves the state alone. *)
Lemma parameter_range_inventory_run :
  amda.parameter_range run.server_url run.Tree run.xmltodict_parse
    run.obs_extrac_all run.tt_extrac_all run.soap_get_obs_data_tree
    run.datetime run.strptime "imf"
    (run.world_of empty_inventory run.update_script)
  = (Ok (Some (amda.mkDateTimeRange run.datetime
                 (run.mkDatetime 2000 1 1 0 0 0) (run.mkDatetime 2000 1 2 0 0 0))),
     run.updated_world) /\
  amda.parameter_range run.server_url run.Tree run.xmltodict_parse
    run.obs_extrac_all run.tt_extrac_all run.soap_get_obs_data_tree
    run.datetime run.strptime "imf" run.updated_world
  = (Ok (Some (amda.mkDateTimeRange run.datetime
                 (run.mkDatetime 2000 1 1 0 0 0) (run.mkDatetime 2000 1 2 0 0 0))),
     run.updated_world).
Proof.
  destruct (parameter_range_inventory run.server_url run.Tree run.xmltodict_parse
              run.obs_extrac_all run.tt_extrac_all run.soap_get_obs_data_tree
              run.datetime run.strptime "imf"
              (run.world_of empty_inventory run.update_script)) as [Hempty _].
  destruct (Hempty eq_refl) as [_ Hrun].
  destruct (Hrun run.updated_world) as (Hrange & _); [vm_compute; reflexivity |].
  destruct (parameter_range_inventory run.server_url run.Tree run.xmltodict_parse
              run.obs_extrac_all run.tt_extrac_all run.soap_get_obs_data_tree
              run.datetime run.strptime "imf" run.updated_world) as [_ Hfull].
  assert (Hne : size (parameter (inv run.updated_world)) <> 0%nat)
    by (vm_compute; discriminate).
  split.
  - rewrite Hrange. vm_compute. reflexivity.
  - rewrite (Hfull Hne). vm_compute. reflexivity.
Defined.

(** ** The fragment cache *)

Lemma for_each_cons_ok {S A B} (body : A -> ST S B) x l s r s' :
  for_each body (x :: l) s = (Ok r, s') ->
  exists b s1 bs,
    body x s = (Ok b, s1) /\ for_each body l s1 = (Ok bs, s') /\ r = b :: bs.
Proof.
  cbn [for_each]. intros H.
  apply bind_inv_ok in H as (b & s1 & Hb & H).
  apply bind_inv_ok in H as (bs & s2 & Hbs & H).
  injection H as <- <-. now exists b, s1, bs.
Qed.

Lemma fragments_cell (width c : Z) :
  0 < width ->
  cache.fragments width (c * width) ((c + 1) * width)
  = [(c * width, (c + 1) * width)].
Proof.
  intros Hw. unfold cache.fragments.
  replace (c * width <? (c + 1) * width) with true by (symmetry; apply Z.ltb_lt; nia).
  replace (0 <? width) with true by (symmetry; now apply Z.ltb_lt).
  cbn [andb].
  rewrite Z.div_mul by lia.
  replace (- ((c + 1) * width)) with ((- (c + 1)) * width) by ring.
  rewrite Z.div_mul by lia.
  replace (- - (c + 1) - c) with 1 by ring.
  reflexivity.
Qed.

Lemma fragments_empty (width start stop : Z) :
  stop <= start -> cache.fragments width start stop = [].
Proof.
  intros H. unfold cache.fragments.
  replace (start <? stop) with false by (symmetry; apply Z.ltb_ge; lia).
  reflexivity.
Qed.

(** The day 2000-01-01 on a grid of twelve hours: two fragments. *)
Lemma fragments_one_day :
  cache.fragments (12 * 3600) run.t0 run.t24
  = [(run.t0, run.t12); (run.t12, run.t24)].
Proof. reflexivity. Qed.

(** A request inside one cell is widened to the whole cell. *)
Lemma fragments_widened :
  cache.fragments (12 * 3600) (run.t0 + 60) (run.t0 + 120)
  = [(run.t0, run.t12)].
Proof. reflexivity. Qed.

Section cache_facts.

Variable prefix : string.
Variable version : Inventory -> string -> outcome string.
Variable fragment_hours : string -> Z.
Variable raw : string -> Z -> Z -> ST Net (option Series).

Abbreviation key := (cache.key prefix).
Abbreviation refetch := (cache.refetch prefix raw).
Abbreviation fetch_fragment := (cache.fetch_fragment prefix raw).
Abbreviation Cacheable := (cache.Cacheable prefix version fragment_hours raw).

Lemma refetch_unfold product v frag w :
  refetch product v frag w
  = match raw product (fst frag) (snd frag) (net w) with
    | (Ok payload, n') =>
        (Ok payload,
         mkWorld (inv w) (cache w)
           (<[key product frag := (payload, v)]> (store w))
           ((store_log w ++ [OpFetch (key product frag)])
              ++ [OpSet (key product frag)])
           n')
    | (Raise e, n') =>
        (Raise e,
         mkWorld (inv w) (cache w) (store w)
           (store_log w ++ [OpFetch (key product frag)]) n')
    | (Hang, n') =>
        (Hang,
         mkWorld (inv w) (cache w) (store w)
           (store_log w ++ [OpFetch (key product frag)]) n')
    end.
Proof.
  unfold cache.refetch, bind, modify, on_net, cache.store_set, ret. cbn.
  destruct (raw product (fst frag) (snd frag) (net w)) as [[payload | e |] n'];
    reflexivity.
Qed.

Lemma fetch_fragment_unfold product v frag w :
  fetch_fragment product v frag w
  = match store w !! key product frag with
    | Some (payload, v') =>
        if String.eqb v' v then (Ok payload, log_op (OpGet (key product frag)) w)
        else refetch product v frag (log_op (OpGet (key product frag)) w)
    | None => refetch product v frag (log_op (OpGet (key product frag)) w)
    end.
Proof.
  unfold cache.fetch_fragment, bind, cache.store_get, ret. cbn.
  destruct (store w !! key product frag) as [[payload v'] |]; [| reflexivity].
  destruct (String.eqb v' v); reflexivity.
Qed.

(** A fragment that is in the store under the current version is reused:
    one read of the store, no fetch, no write. *)
Lemma fetch_fragment_hit product v frag w payload :
  store w !! key product frag = Some (payload, v) ->
  fetch_fragment product v frag w
  = (Ok payload, log_op (OpGet (key product frag)) w).
Proof.
  intros H. rewrite fetch_fragment_unfold, H. now rewrite String.eqb_refl.
Qed.

(** Whatever comes of it, the fetch of one fragment stays on that
    fragment's key. *)
Lemma fetch_fragment_frame product v frag w o w' :
  fetch_fragment product v frag w = (o, w') ->
  inv w' = inv w /\ cache w' = cache w /\
  (forall k, k <> key product frag -> store w' !! k = store w !! k) /\
  (forall k p, store w !! k = Some (p, v) -> store w' !! k = Some (p, v)) /\
  exists ops,
    store_log w' = store_log w ++ ops /\
    Forall (fun op => op_key op = key product frag) ops.
Proof.
  rewrite fetch_fragment_unfold.
  assert (Hhit : forall payload,
            (Ok payload, log_op (OpGet (key product frag)) w) = (o, w') ->
            inv w' = inv w /\ cache w' = cache w /\
            (forall k, k <> key product frag -> store w' !! k = store w !! k) /\
            (forall k p, store w !! k = Some (p, v) -> store w' !! k = Some (p, v)) /\
            exists ops,
              store_log w' = store_log w ++ ops /\
              Forall (fun op => op_key op = key product frag) ops).
  { intros payload [= <- <-]. cbn. repeat split; auto.
    exists [OpGet (key product frag)]. split; [reflexivity |].
    repeat constructor. }
  assert (Hmiss : (forall p, store w !! key product frag <> Some (p, v)) ->
            refetch product v frag (log_op (OpGet (key product frag)) w) = (o, w') ->
            inv w' = inv w /\ cache w' = cache w /\
            (forall k, k <> key product frag -> store w' !! k = store w !! k) /\
            (forall k p, store w !! k = Some (p, v) -> store w' !! k = Some (p, v)) /\
            exists ops,
              store_log w' = store_log w ++ ops /\
              Forall (fun op => op_key op = key product frag) ops).
  { intros Hstale. rewrite refetch_unfold. cbn.
    destruct (raw product (fst frag) (snd frag) (net w)) as [[payload | e |] n'];
      intros [= <- <-]; cbn.
    - repeat split; auto.
      + intros k Hk. now apply lookup_insert_ne.
      + intros k p Hp. rewrite lookup_insert_ne; [assumption |].
        intros <-. now apply (Hstale p).
      + exists [OpGet (key product frag); OpFetch (key product frag);
                OpSet (key product frag)].
        split; [now rewrite <- !app_assoc | repeat constructor].
    - repeat split; auto.
      exists [OpGet (key product frag); OpFetch (key product frag)].
      split; [now rewrite <- !app_assoc | repeat constructor].
    - repeat split; auto.
      exists [OpGet (key product frag); OpFetch (key product frag)].
      split; [now rewrite <- !app_assoc | repeat constructor]. }
  destruct (store w !! key product frag) as [[payload v'] |] eqn:Hk.
  - destruct (String.eqb v' v) eqn:Hv.
    + apply Hhit.
    + apply Hmiss. intros p [= _ ->]. now rewrite String.eqb_refl in Hv.
  - apply Hmiss. discriminate.
Qed.

(** A fragment that came back is in the store under the current version,
    with the payload that was returned. *)
Lemma fetch_fragment_stored product v frag w payload w' :
  fetch_fragment product v frag w = (Ok payload, w') ->
  store w' !! key product frag = Some (payload, v).
Proof.
  rewrite fetch_fragment_unfold.
  assert (Hmiss : refetch product v frag (log_op (OpGet (key product frag)) w)
                  = (Ok payload, w') ->
                  store w' !! key product frag = Some (payload, v)).
  { rewrite refetch_unfold. cbn.
    destruct (raw product (fst frag) (snd frag) (net w)) as [[payload' | e |] n'];
      intros [= <- <-]; cbn. apply lookup_insert_eq. }
  destruct (store w !! key product frag) as [[payload' v'] |] eqn:Hk;
    [| exact Hmiss].
  destruct (String.eqb v' v) eqn:Hv; [| exact Hmiss].
  apply String.eqb_eq in Hv as ->. now intros [= <- <-].
Qed.

Lemma for_each_fetch_frame product v frags : forall w o w',
  for_each (fetch_fragment product v) frags w = (o, w') ->
  inv w' = inv w /\ cache w' = cache w /\
  (forall k, k ∉ key product <$> frags -> store w' !! k = store w !! k) /\
  (forall k p, store w !! k = Some (p, v) -> store w' !! k = Some (p, v)) /\
  exists ops,
    store_log w' = store_log w ++ ops /\
    Forall (fun op => op_key op ∈ key product <$> frags) ops.
Proof.
  induction frags as [| frag frags IH]; intros w o w'.
  - intros [= <- <-]. repeat split; auto. exists []. now rewrite app_nil_r.
  - cbn [for_each]. unfold bind at 1.
    destruct (fetch_fragment product v frag w) as [o1 w1] eqn:H1.
    destruct (fetch_fragment_frame _ _ _ _ _ _ H1)
      as (Hi & Hc & Hs & Hst & ops1 & Hl & Hops1).
    assert (Hops1' : Forall (fun op => op_key op ∈ key product <$> frag :: frags) ops1).
    { eapply Forall_impl; [exact Hops1 |]. cbn. intros op ->. left. }
    destruct o1 as [b | e |].
    + unfold bind at 1.
      destruct (for_each (fetch_fragment product v) frags w1) as [o2 w2] eqn:H2.
      destruct (IH _ _ _ H2) as (Hi2 & Hc2 & Hs2 & Hst2 & ops2 & Hl2 & Hops2).
      intros Heq.
      assert (Hend : w2 = w') by (destruct o2; unfold ret in Heq; congruence).
      subst w2. clear Heq.
      split; [congruence |]. split; [congruence |]. split; [| split].
      * intros k Hk. rewrite fmap_cons, not_elem_of_cons in Hk.
        destruct Hk as [Hk1 Hk2]. rewrite Hs2, Hs; auto.
      * eauto.
      * exists (ops1 ++ ops2). split; [rewrite Hl2, Hl; now rewrite app_assoc |].
        apply Forall_app. split; [assumption |].
        eapply Forall_impl; [exact Hops2 |]. cbn. intros op Hop. now right.
    + intros [= <- <-]. repeat split; auto.
      * intros k Hk. rewrite fmap_cons, not_elem_of_cons in Hk. apply Hs, Hk.
      * now exists ops1.
    + intros [= <- <-]. repeat split; auto.
      * intros k Hk. rewrite fmap_cons, not_elem_of_cons in Hk. apply Hs, Hk.
      * now exists ops1.
Qed.

(** After a pass that came back, every fragment of the pass is in the
    store under the current version with the payload the pass returned. *)
Lemma for_each_fetch_stored product v frags : forall w payloads w',
  for_each (fetch_fragment product v) frags w = (Ok payloads, w') ->
  Forall2 (fun frag payload => store w' !! key product frag = Some (payload, v))
    frags payloads.
Proof.
  induction frags as [| frag frags IH]; intros w payloads w' H.
  - injection H as <- <-. constructor.
  - apply for_each_cons_ok in H as (b & w1 & bs & H1 & H2 & ->).
    constructor; [| eapply IH; eassumption].
    destruct (for_each_fetch_frame _ _ _ _ _ _ H2) as (_ & _ & _ & Hst & _).
    apply Hst. eapply fetch_fragment_stored; eassumption.
Qed.

(** A pass over fragments that are all in the store under the current
    version only reads the store. *)
Lemma for_each_fetch_hits product v frags : forall payloads w,
  Forall2 (fun frag payload => store w !! key product frag = Some (payload, v))
    frags payloads ->
  for_each (fetch_fragment product v) frags w
  = (Ok payloads,
     mkWorld (inv w) (cache w) (store w)
       (store_log w ++ ((fun frag => OpGet (key product frag)) <$> frags))
       (net w)).
Proof.
  induction frags as [| frag frags IH]; intros payloads w Hall.
  - inversion Hall; subst. cbn. rewrite app_nil_r. now destruct w.
  - inversion Hall as [| ? payload ? bs Hhit Hrest]; subst.
    cbn [for_each].
    rewrite (bind_ok _ _ _ _ _ (fetch_fragment_hit _ _ _ _ _ Hhit)).
    rewrite (bind_ok _ _ _ _ _
               (IH bs (log_op (OpGet (key product frag)) w) Hrest)).
    unfold ret. cbn. now rewrite <- app_assoc.
Qed.

(** The same request, asked again of a store that kept what the first
    call left and with the version unchanged, is answered from the store
    alone and with the same result. *)
Lemma Cacheable_again product start stop w r w1 w2 :
  Cacheable product start stop w = (Ok r, w1) ->
  store w2 = store w1 ->
  version (inv w2) product = version (inv w) product ->
  Cacheable product start stop w2
  = (Ok r,
     mkWorld (inv w2) (cache w2) (store w2)
       (store_log w2
          ++ ((fun frag => OpGet (key product frag))
                <$> cache.fragments (fragment_hours product * 3600) start stop))
       (net w2)).
Proof.
  unfold cache.Cacheable. intros H Hstore Hver.
  apply bind_inv_ok in H as (self & w0 & Hself & H).
  injection Hself as <- <-.
  apply bind_inv_ok in H as (v & w0 & Hv & H).
  unfold lift_outcome in Hv. injection Hv as Hv <-.
  apply bind_inv_ok in H as (payloads & w' & Hpass & H).
  injection H as <- <-.
  apply for_each_fetch_stored in Hpass. rewrite <- Hstore in Hpass.
  unfold bind at 1. unfold gets at 1.
  unfold bind at 1. unfold lift_outcome at 1. rewrite Hver, Hv.
  now rewrite (bind_ok _ _ _ _ _ (for_each_fetch_hits _ _ _ _ _ Hpass)).
Qed.

(** An empty request is answered with the empty-result marker, without a
    look at the store or a fetch. *)
Lemma Cacheable_empty product start stop w v :
  stop <= start -> version (inv w) product = Ok v ->
  Cacheable product start stop w = (Ok None, w).
Proof.
  intros Hle Hv. unfold cache.Cacheable, bind, gets, lift_outcome.
  rewrite Hv, fragments_empty by assumption. reflexivity.
Qed.

(** Whatever comes of a request, the inventory is as before, and the
    store is read and written at the fragments of the request only. *)
Lemma Cacheable_frame product start stop w o w' :
  Cacheable product start stop w = (o, w') ->
  inv w' = inv w /\ cache w' = cache w /\
  (forall k,
     k ∉ key product
         <$> cache.fragments (fragment_hours product * 3600) start stop ->
     store w' !! k = store w !! k) /\
  exists ops,
    store_log w' = store_log w ++ ops /\
    Forall
      (fun op =>
         op_key op ∈
           key product
             <$> cache.fragments (fragment_hours product * 3600) start stop)
      ops.
Proof.
  unfold cache.Cacheable, bind, gets, lift_outcome.
  assert (Hnone : forall o0, (o0, w) = (o, w') ->
            inv w' = inv w /\ cache w' = cache w /\
            (forall k,
               k ∉ key product
                   <$> cache.fragments (fragment_hours product * 3600) start stop ->
               store w' !! k = store w !! k) /\
            exists ops,
              store_log w' = store_log w ++ ops /\
              Forall
                (fun op =>
                   op_key op ∈
                     key product
                       <$> cache.fragments (fragment_hours product * 3600) start stop)
                ops).
  { intros o0 [= _ <-]. repeat split; auto. exists []. now rewrite app_nil_r. }
  destruct (version (inv w) product) as [v | e |]; [| apply Hnone ..].
  destruct (for_each (fetch_fragment product v) _ w) as [o1 w1] eqn:Hpass.
  destruct (for_each_fetch_frame _ _ _ _ _ _ Hpass)
    as (Hi & Hc & Hs & _ & ops & Hl & Hops).
  assert (Hend : w1 = w' -> inv w' = inv w /\ cache w' = cache w /\
            (forall k,
               k ∉ key product
                   <$> cache.fragments (fragment_hours product * 3600) start stop ->
               store w' !! k = store w !! k) /\
            exists ops,
              store_log w' = store_log w ++ ops /\
              Forall
                (fun op =>
                   op_key op ∈
                     key product
                       <$> cache.fragments (fragment_hours product * 3600) start stop)
                ops).
  { intros <-. repeat split; auto. now exists ops. }
  destruct o1; intros [= _ Hw]; now apply Hend.
Qed.

End cache_facts.

(** ** [get_data] behind its cache *)

Section get_data_facts.

Variable server_url : string.
Variable str_float : Z -> string.
Variable load_csv : Json -> ST Net Series.
Variable Proxyfiable :
  (string -> Z -> Z -> ST Net (option Series)) ->
  string -> Z -> Z -> ST Net (option Series).

Abbreviation get_data :=
  (amda.get_data server_url str_float load_csv Proxyfiable).

(** The function under the cache of [get_data]. *)
Abbreviation raw :=
  (Proxyfiable
     (fun product start_time stop_time =>
        amda._dl_parameter server_url str_float load_csv
          start_time stop_time product)).

(** C2.  When [get_data] has returned, the same request on a store that
    still holds what that call left, with [product_version] answering as
    before, returns the same result; it reads the store once per fragment
    and does nothing else: the network is as it was, nothing is fetched
    and nothing is written.  This is so because a fragment found under its
    key with the current version is returned as it is. *)
Theorem get_data_twice (product : string) (start stop : Z)
    (r : option Series) (w w1 w2 : World) :
  get_data product start stop w = (Ok r, w1) ->
  store w2 = store w1 ->
  amda.product_version (inv w2) product = amda.product_version (inv w) product ->
  get_data product start stop w2
  = (Ok r,
     mkWorld (inv w2) (cache w2) (store w2)
       (store_log w2
          ++ ((fun frag => OpGet (cache.key "amda" product frag))
                <$> cache.fragments (12 * 3600) start stop))
       (net w2))
  /\
  (forall frag payload v w0,
     store w0 !! cache.key "amda" product frag = Some (payload, v) ->
     cache.fetch_fragment "amda" raw product v frag w0
     = (Ok payload, log_op (OpGet (cache.key "amda" product frag)) w0)).
Proof.
  intros H Hstore Hver. split.
  - apply (Cacheable_again _ _ _ _ _ _ _ _ _ _ _ H Hstore Hver).
  - intros frag payload v w0. apply fetch_fragment_hit.
Qed.

(** C7.  Let the grid cells [c] and [b] of a product both be in the store
    under version [v1], and let the product now be at another version
    [v2].  A request for cell [c] alone reads the entry of [c], finds it
    stale and calls the function under the cache on that cell; if the
    function returns, its payload is written under the key of [c] with
    version [v2] and the request returns; if it raises, nothing is
    written.  In every case the entry of [b], and every entry under
    another key than that of [c], is as it was, payload and version. *)
Theorem get_data_partial_invalidation (product : string) (c b : Z)
    (pa pb : option Series) (v1 v2 : string) (w : World) :
  let A := (c * 43200, (c + 1) * 43200) in
  let B := (b * 43200, (b + 1) * 43200) in
  let kA := cache.key "amda" product A in
  b <> c ->
  store w !! kA = Some (pa, v1) ->
  store w !! cache.key "amda" product B = Some (pb, v1) ->
  amda.product_version (inv w) product = Ok v2 ->
  v2 <> v1 ->
  get_data product (fst A) (snd A) w
  = match raw product (fst A) (snd A) (net w) with
    | (Ok payload, n') =>
        (Ok (cache.merge (fst A) (snd A) [payload]),
         mkWorld (inv w) (cache w) (<[kA := (payload, v2)]> (store w))
           (store_log w ++ [OpGet kA; OpFetch kA; OpSet kA]) n')
    | (Raise e, n') =>
        (Raise e,
         mkWorld (inv w) (cache w) (store w)
           (store_log w ++ [OpGet kA; OpFetch kA]) n')
    | (Hang, n') =>
        (Hang,
         mkWorld (inv w) (cache w) (store w)
           (store_log w ++ [OpGet kA; OpFetch kA]) n')
    end
  /\
  store (snd (get_data product (fst A) (snd A) w))
    !! cache.key "amda" product B = Some (pb, v1)
  /\
  (forall k, k <> kA ->
     store (snd (get_data product (fst A) (snd A) w)) !! k = store w !! k).
Proof.
  intros A B kA Hbc HA HB Hver Hv.
  assert (HAB : cache.key "amda" product B <> kA).
  { unfold kA, cache.key, A, B. cbn. intros [= H _]. lia. }
  assert (Hrun :
    get_data product (fst A) (snd A) w
    = match raw product (fst A) (snd A) (net w) with
      | (Ok payload, n') =>
          (Ok (cache.merge (fst A) (snd A) [payload]),
           mkWorld (inv w) (cache w) (<[kA := (payload, v2)]> (store w))
             (store_log w ++ [OpGet kA; OpFetch kA; OpSet kA]) n')
      | (Raise e, n') =>
          (Raise e,
           mkWorld (inv w) (cache w) (store w)
             (store_log w ++ [OpGet kA; OpFetch kA]) n')
      | (Hang, n') =>
          (Hang,
           mkWorld (inv w) (cache w) (store w)
             (store_log w ++ [OpGet kA; OpFetch kA]) n')
      end).
  { unfold amda.get_data, cache.Cacheable.
    unfold bind at 1. unfold gets at 1.
    unfold bind at 1. unfold lift_outcome at 1. rewrite Hver.
    change (12 * 3600) with 43200. unfold A at 1 2. cbn [fst snd].
    rewrite fragments_cell by lia. fold A.
    cbn [for_each]. unfold bind at 1. unfold bind at 1.
    rewrite fetch_fragment_unfold. fold kA. rewrite HA.
    replace (String.eqb v1 v2) with false
      by (symmetry; apply String.eqb_neq; congruence).
    rewrite refetch_unfold. fold kA.
    cbn [net log_op inv cache store store_log].
    destruct (raw product (fst A) (snd A) (net w)) as [[payload | e |] n'];
      cbn; rewrite <- ?app_assoc; reflexivity. }
  split; [exact Hrun |].
  rewrite Hrun.
  destruct (raw product (fst A) (snd A) (net w)) as [[payload | e |] n']; cbn.
  - split; [rewrite lookup_insert_ne by congruence; exact HB |].
    intros k Hk. now rewrite lookup_insert_ne by congruence.
  - split; [exact HB | reflexivity].
  - split; [exact HB | reflexivity].
Qed.

End get_data_facts.

(** The morning of 2000-01-01 is fetched with three requests; asked for
    again, it comes from the store. *)
Lemma get_data_twice_run :
  amda.get_data run.server_url run.str_float run.load_csv run.Proxyfiable
    "imf" run.t0 run.t12 (run.world_of run.catalog (run.fetch_script "946684800"))
  = (Ok (Some run.sample), run.fetched_world) /\
  amda.get_data run.server_url run.str_float run.load_csv run.Proxyfiable
    "imf" run.t0 run.t12 run.fetched_world
  = (Ok (Some run.sample),
     mkWorld run.catalog ∅ (store run.fetched_world)
       [OpGet run.morning; OpFetch run.morning; OpSet run.morning;
        OpGet run.morning]
       (mkNet [] run.fetch_trace)).
Proof.
  assert (H : amda.get_data run.server_url run.str_float run.load_csv
                run.Proxyfiable "imf" run.t0 run.t12
                (run.world_of run.catalog (run.fetch_script "946684800"))
              = (Ok (Some run.sample), run.fetched_world))
    by (vm_compute; reflexivity).
  split; [exact H |].
  destruct (get_data_twice run.server_url run.str_float run.load_csv
              run.Proxyfiable "imf" run.t0 run.t12 _ _ _ run.fetched_world
              H eq_refl eq_refl) as [Hagain _].
  rewrite Hagain. reflexivity.
Defined.

(** The stale morning is fetched again and stored under the version of
    the catalog; the afternoon stays as it was, under version "1". *)
Lemma get_data_partial_invalidation_run :
  amda.get_data run.server_url run.str_float run.load_csv run.Proxyfiable
    "imf" run.t0 run.t12 run.stale_world
  = (Ok (Some run.sample),
     mkWorld run.catalog ∅
       (<[run.morning := (Some run.sample, "2021-06-01T12:00:00Z")]>
          run.stale_store)
       [OpGet run.morning; OpFetch run.morning; OpSet run.morning]
       (mkNet [] run.fetch_trace)) /\
  store (snd (amda.get_data run.server_url run.str_float run.load_csv
                run.Proxyfiable "imf" run.t0 run.t12 run.stale_world))
    !! run.afternoon
  = Some (Some [(run.t12, "old")], "1").
Proof.
  destruct (get_data_partial_invalidation run.server_url run.str_float
              run.load_csv run.Proxyfiable "imf" 21914 21915
              (Some [(run.t0, "old")]) (Some [(run.t12, "old")])
              "1" "2021-06-01T12:00:00Z" run.stale_world)
    as (Hrun & HB & _); try reflexivity; try discriminate.
  split; [| exact HB].
  refine (eq_trans Hrun _). vm_compute. reflexivity.
Defined.

(** * More of the code *)

(** ** [get]: what it sends, and how it ends *)

Section http_more.

Variable USER_AGENT : string.
Variable float : string -> option pyfloat.

Lemma requests_get_trace url h p n :
  trace (snd (requests_get url h p n))
  = trace n ++ [EvRequest (mkRequest url h p)].
Proof. destruct n as [[| [r | e] rest] tr]; reflexivity. Qed.

Lemma sleep_trace d n :
  trace (snd (sleep d n)) = trace n \/
  trace (snd (sleep d n)) = trace n ++ [EvSleep d].
Proof. unfold sleep. destruct (sleep_check d); cbn; auto. Qed.

Lemma get_loop_trace url h p :
  h !! "User-Agent" = Some USER_AGENT ->
  forall fuel resp n,
  exists evs,
    trace (snd (http.get_loop float fuel url h p resp n)) = trace n ++ evs /\
    Forall (http.from_get USER_AGENT url) evs.
Proof.
  intros Hua.
  assert (Hreq : http.from_get USER_AGENT url (EvRequest (mkRequest url (Some h) p))).
  { cbn. split; [reflexivity |]. now exists h. }
  assert (Hnil : forall n : Net, exists evs,
             trace n = trace n ++ evs /\ Forall (http.from_get USER_AGENT url) evs).
  { intros n. exists []. now rewrite app_nil_r. }
  induction fuel as [| fuel IH]; intros resp n; cbn [http.get_loop];
    destruct (http.rate_limited resp); try apply Hnil.
  unfold bind at 1.
  pose proof (retry_delay_state float resp n) as Hst.
  destruct (http.retry_delay float resp n) as [[d | e |] n1]; cbn in Hst; subst n1;
    try apply Hnil.
  unfold bind at 1.
  pose proof (sleep_trace d n) as Hsl.
  destruct (sleep d n) as [[[] | e |] n2]; cbn in Hsl.
  - unfold bind at 1.
    pose proof (requests_get_trace url (Some h) p n2) as Hrq.
    destruct (requests_get url (Some h) p n2) as [[r | e |] n3]; cbn in Hrq.
    + destruct (IH r n3) as (evs & Hevs & Hall). rewrite Hevs, Hrq.
      destruct Hsl as [-> | ->].
      * exists (EvRequest (mkRequest url (Some h) p) :: evs).
        split; [now rewrite <- app_assoc | now constructor].
      * exists (EvSleep d :: EvRequest (mkRequest url (Some h) p) :: evs).
        split; [now rewrite <- !app_assoc |].
        constructor; [exact I | constructor; assumption].
    + cbn. rewrite Hrq. destruct Hsl as [-> | ->].
      * exists [EvRequest (mkRequest url (Some h) p)]. split; [reflexivity |].
        constructor; [exact Hreq | constructor].
      * exists [EvSleep d; EvRequest (mkRequest url (Some h) p)].
        split; [now rewrite <- !app_assoc |].
        constructor; [exact I | constructor; [exact Hreq | constructor]].
    + cbn. rewrite Hrq. destruct Hsl as [-> | ->].
      * exists [EvRequest (mkRequest url (Some h) p)]. split; [reflexivity |].
        constructor; [exact Hreq | constructor].
      * exists [EvSleep d; EvRequest (mkRequest url (Some h) p)].
        split; [now rewrite <- !app_assoc |].
        constructor; [exact I | constructor; [exact Hreq | constructor]].
  - cbn. destruct Hsl as [-> | ->].
    + apply Hnil.
    + exists [EvSleep d]. split; [reflexivity |].
      constructor; [exact I | constructor].
  - cbn. destruct Hsl as [-> | ->].
    + apply Hnil.
    + exists [EvSleep d]. split; [reflexivity |].
      constructor; [exact I | constructor].
Qed.

(** X2.  Whatever the network answers and however [get] ends, all it adds
    to the trace are sleeps and requests to the caller's [url] that carry
    the package's own [User-Agent], the caller's, if any, overwritten. *)
Theorem get_sends_only_to_url url hdrs params n :
  exists evs,
    trace (snd (http.get USER_AGENT float url hdrs params n)) = trace n ++ evs /\
    Forall (http.from_get USER_AGENT url) evs.
Proof.
  unfold http.get. set (h := <["User-Agent" := USER_AGENT]> (default ∅ hdrs)).
  assert (Hua : h !! "User-Agent" = Some USER_AGENT) by apply lookup_insert_eq.
  assert (Hreq : http.from_get USER_AGENT url (EvRequest (mkRequest url (Some h) None))).
  { cbn. split; [reflexivity |]. now exists h. }
  unfold bind at 1.
  pose proof (requests_get_trace url (Some h) None n) as Hrq.
  destruct (requests_get url (Some h) None n) as [[r | e |] n1]; cbn in Hrq.
  - destruct (get_loop_trace url h params Hua (S (length (script n1))) r n1)
      as (evs & Hevs & Hall).
    rewrite Hevs, Hrq. exists (EvRequest (mkRequest url (Some h) None) :: evs).
    split; [now rewrite <- app_assoc | now constructor].
  - cbn. rewrite Hrq. exists [EvRequest (mkRequest url (Some h) None)].
    split; [reflexivity | constructor; [exact Hreq | constructor]].
  - cbn. rewrite Hrq. exists [EvRequest (mkRequest url (Some h) None)].
    split; [reflexivity | constructor; [exact Hreq | constructor]].
Qed.

Lemma requests_get_raises url h p e rest tr :
  requests_get url h p (mkNet (inr e :: rest) tr)
  = (Raise e, mkNet rest (tr ++ [EvRequest (mkRequest url h p)])).
Proof. reflexivity. Qed.

Lemma get_loop_transport url h p e rest :
  forall plan r d fuel tr,
    (length plan < fuel)%nat ->
    http.waits_for float (r, d) ->
    Forall (http.waits_for float) plan ->
    http.get_loop float fuel url h p r
      (mkNet (map inl (map fst plan) ++ inr e :: rest) tr)
    = (Raise e, mkNet rest (tr ++ http.retries url h p ((r, d) :: plan))).
Proof.
  induction plan as [| [r' d'] plan IH]; intros r d fuel tr Hlen (Hrl & Hd & Hs) Hall;
    cbn in Hrl, Hd, Hs; (destruct fuel as [| fuel]; [cbn in Hlen; lia |]).
  - cbn [map app http.get_loop]. rewrite Hrl.
    rewrite (bind_ok _ _ _ _ _ (Hd _)). unfold sleep. rewrite Hs.
    unfold bind at 1. cbn. now rewrite <- app_assoc.
  - inversion Hall as [| ? ? Hw Hall']; subst. cbn [map fst app].
    rewrite (get_loop_round float fuel url h p r d); auto.
    rewrite (IH r' d'); [| cbn in Hlen; lia | assumption | assumption].
    cbn [http.retries flat_map]. now rewrite <- !app_assoc.
Qed.

(** X3.  An exception of the transport is not retried: whether it comes
    on the first request or on a retry after any number of rate-limited
    answers, [get] raises it at once, the later answers left unread. *)
Theorem get_raises_transport url hdrs p e rest plan tr :
  Forall (http.waits_for float) plan ->
  let h := <["User-Agent" := USER_AGENT]> (default ∅ hdrs) in
  http.get USER_AGENT float url hdrs p
    (mkNet (map inl (map fst plan) ++ inr e :: rest) tr)
  = (Raise e,
     mkNet rest
       (tr ++ [EvRequest (mkRequest url (Some h) None)]
           ++ http.retries url h p plan)).
Proof.
  intros Hall h. unfold http.get. fold h.
  destruct plan as [| [r d] plan].
  - cbn [map app]. rewrite (bind_raise _ _ _ _ _ (requests_get_raises _ _ _ _ _ _)).
    cbn. reflexivity.
  - inversion Hall as [| ? ? Hw Hall']; subst. cbn [map fst app].
    rewrite (bind_ok _ _ _ _ _ (requests_get_answer url (Some h) None _ _ tr)).
    rewrite (get_loop_transport url h p e rest plan r d); auto.
    + now rewrite <- app_assoc.
    + cbn. rewrite length_app, !length_map. cbn. lia.
Qed.

(** X4.  The sleep is outside the [try]: when the delay read from
    Retry-After is one [time.sleep] refuses (a negative number, say), its
    exception leaves [get], which has sent one request, has not slept and
    does not ask again. *)
Theorem get_sleep_refused url hdrs p r v d e rest tr :
  http.rate_limited r = true ->
  headers r !! "retry-after" = Some v ->
  float v = Some d ->
  sleep_check d = Some e ->
  let h := <["User-Agent" := USER_AGENT]> (default ∅ hdrs) in
  http.get USER_AGENT float url hdrs p (mkNet (inl r :: rest) tr)
  = (Raise e, mkNet rest (tr ++ [EvRequest (mkRequest url (Some h) None)])).
Proof.
  intros Hrl Hv Hd Hs h. unfold http.get. fold h.
  rewrite (bind_ok _ _ _ _ _ (requests_get_answer url (Some h) None _ _ tr)).
  cbn [http.get_loop script length]. rewrite Hrl.
  rewrite (bind_ok _ _ _ _ _ (retry_delay_valid float r v d _ Hv Hd)).
  unfold sleep. rewrite Hs. reflexivity.
Qed.

End http_more.

(** Two rate-limited answers, the second with an unreadable delay, then
    a 200: two sleeps, of 1 and of 5, and the 200 is returned. *)
Lemma get_returns_first_good_run :
  http.get run.USER_AGENT run.float run.url None (Some run.params)
    (mkNet [inl run.limited_1s; inl run.limited_soon; inl run.ok_200] [])
  = (Ok run.ok_200,
     mkNet []
       [EvRequest (mkRequest run.url (Some run.sent_headers) None);
        EvSleep (FFin 1);
        EvRequest (mkRequest run.url (Some run.sent_headers) (Some run.params));
        EvSleep (FFin 5);
        EvRequest (mkRequest run.url (Some run.sent_headers) (Some run.params))]).
Proof.
  assert (Hplan : Forall (http.waits_for run.float)
                    [(run.limited_1s, FFin 1); (run.limited_soon, FFin 5)]).
  { repeat constructor; intros n; reflexivity. }
  exact (get_returns_first_good run.USER_AGENT run.float run.url None
           (Some run.params) run.ok_200 [] _ [] eq_refl Hplan).
Defined.

(** A rate-limited answer, then a broken connection. *)
Lemma get_raises_transport_run :
  http.get run.USER_AGENT run.float run.url None (Some run.params)
    (mkNet [inl run.limited_1s; inr ConnectionError; inl run.ok_200] [])
  = (Raise ConnectionError,
     mkNet [inl run.ok_200]
       [EvRequest (mkRequest run.url (Some run.sent_headers) None);
        EvSleep (FFin 1);
        EvRequest (mkRequest run.url (Some run.sent_headers) (Some run.params))]).
Proof.
  assert (Hplan : Forall (http.waits_for run.float) [(run.limited_1s, FFin 1)]).
  { repeat constructor; intros n; reflexivity. }
  exact (get_raises_transport run.USER_AGENT run.float run.url None
           (Some run.params) ConnectionError [inl run.ok_200] _ [] Hplan).
Defined.

(** Retry-After: -1, read by a [float] that knows the sign. *)
Lemma get_sleep_refused_run :
  http.get run.USER_AGENT run.signed_float run.url None None
    (mkNet [inl run.limited_minus_1s; inl run.ok_200] [])
  = (Raise ValueError,
     mkNet [inl run.ok_200]
       [EvRequest (mkRequest run.url (Some run.sent_headers) None)]).
Proof.
  exact (get_sleep_refused run.USER_AGENT run.signed_float run.url None None
           run.limited_minus_1s "-1" (FFin (-1)) ValueError [inl run.ok_200] []
           eq_refl eq_refl eq_refl eq_refl).
Defined.

(** ** The REST flows: attempts, bounds and addresses *)

(** X5.  The test of [get_parameter] passes exactly on a JSON object whose
    [success] is the boolean [true] (not 1, not the string "true") and
    which has a [dataFileURLs] entry; on any JSON object it answers without
    raising, and on null, a boolean or a number it raises [TypeError]. *)
Theorem succeeded_exactly (js : Json) :
  (rest.succeeded js = Ok true <->
   exists o urls,
     js = JObj o /\ o !! "success" = Some (JBool true) /\
     o !! "dataFileURLs" = Some urls) /\
  (forall o, returned (rest.succeeded (JObj o)) = true) /\
  (js = JNull \/ (exists b, js = JBool b) \/ (exists q, js = JNum q) ->
   rest.succeeded js = Raise TypeError).
Proof.
  split; [| split].
  - split.
    + unfold rest.succeeded.
      destruct js as [| b | q | s | l | o]; cbn; try discriminate.
      * destruct (str_contains "success" s); discriminate.
      * destruct (existsb (json_is_str "success") l); discriminate.
      * case_bool_decide as Hin; [| discriminate].
        destruct (o !! "success") as [v |] eqn:Hv; [| discriminate].
        destruct v as [| [|] | | | |]; cbn; try discriminate.
        case_bool_decide as Hurls; [| discriminate].
        destruct Hurls as [urls Hurls]. intros _. now exists o, urls.
    + intros (o & urls & -> & Hs & Hu). unfold rest.succeeded. cbn.
      rewrite Hs. cbn. rewrite bool_decide_true by eauto. reflexivity.
  - intros o. unfold rest.succeeded. cbn.
    case_bool_decide as Hin; [| reflexivity].
    destruct Hin as [v Hv]. rewrite Hv. cbn.
    destruct (json_is_true v); reflexivity.
  - intros [-> | [[b ->] | [q ->]]]; reflexivity.
Qed.

Section rest_more.

Variable server_url : string.

(** The body of the loop of [get_parameter]. *)
Abbreviation attempt kwargs :=
  (token <- rest.get_token server_url ;;
   r <- requests_get
          (rest.base_url server_url "/php/rest/getParameter.php?" kwargs
           +:+ "token=" +:+ token) None None ;;
   js <- lift_outcome (json_of r) ;;
   ok <- lift_outcome (rest.succeeded js) ;;
   if ok then
     urls <- lift_outcome (json_getitem "dataFileURLs" js) ;;
     ret (Return urls)
   else ret Next).

(** The answers of failed rounds, and the requests they cost. *)
Abbreviation answers failed :=
  (flat_map (fun ta : Response * Response => [inl (fst ta); inl (snd ta)])
     failed : list (Response + exn)).
Abbreviation rounds_of kwargs failed :=
  (flat_map
     (fun ta : Response * Response => rest.parameter_round server_url kwargs (fst ta))
     failed).

Lemma attempts_then_success kwargs t a js urls rest :
  json a = Some js -> rest.succeeded js = Ok true ->
  json_getitem "dataFileURLs" js = Ok urls ->
  forall failed rounds tr,
    (length failed < length rounds)%nat ->
    Forall (fun ta => rest.failed_answer (snd ta)) failed ->
    for_return rounds (attempt kwargs) JNull
      (mkNet (answers failed ++ inl t :: inl a :: rest) tr)
    = (Ok urls,
       mkNet rest
         (tr ++ rounds_of kwargs failed
             ++ rest.parameter_round server_url kwargs t)).
Proof.
  intros Hjs Hok Hurls.
  induction failed as [| [t1 a1] failed IH]; intros rounds tr Hlen Hall;
    (destruct rounds as [| [] rounds]; [cbn in Hlen; lia |]).
  - cbn [flat_map app]. rewrite for_return_round.
    rewrite (bind_ok _ _ _ _ _ (get_token_answer server_url t _ tr)).
    rewrite (bind_ok _ _ _ _ _ (requests_get_answer _ None None a rest _)).
    unfold bind at 1. unfold lift_outcome at 1, json_of. rewrite Hjs.
    unfold bind at 1. unfold lift_outcome at 1. rewrite Hok.
    unfold bind at 1. unfold lift_outcome at 1. rewrite Hurls.
    unfold ret, rest.parameter_round. now rewrite <- app_assoc.
  - inversion Hall as [| ? ? Hfail Hall']; subst. cbn in Hfail.
    cbn [flat_map app fst snd].
    rewrite (get_parameter_failed_round server_url rounds kwargs t1 a1) by assumption.
    rewrite IH; [| cbn in Hlen; lia | assumption].
    now rewrite <- !app_assoc.
Qed.

(** X6.  After fewer than three failed answers, a successful answer ends
    [get_parameter] at once: it returns the [dataFileURLs] of that answer,
    has asked for a fresh token in every round, and leaves the answers
    that follow unread. *)
Theorem get_parameter_success_after_failures kwargs failed t a js rest tr :
  (length failed < 3)%nat ->
  Forall (fun ta => rest.failed_answer (snd ta)) failed ->
  json a = Some js -> rest.succeeded js = Ok true ->
  exists urls,
    json_getitem "dataFileURLs" js = Ok urls /\
    rest.get_parameter server_url kwargs
      (mkNet (answers failed ++ inl t :: inl a :: rest) tr)
    = (Ok urls,
       mkNet rest
         (tr ++ rounds_of kwargs failed
             ++ rest.parameter_round server_url kwargs t)).
Proof.
  intros Hlen Hall Hjs Hok.
  destruct (succeeded_true js Hok) as [urls Hurls].
  exists urls. split; [assumption |].
  unfold rest.get_parameter.
  now apply (attempts_then_success kwargs t a js urls rest Hjs Hok Hurls).
Qed.

(** X7.  Three failed answers in a row end [get_parameter] with [None]:
    three rounds, six requests, and no fourth attempt, whatever the
    answers that follow. *)
Theorem get_parameter_gives_up_after_three kwargs failed rest tr :
  length failed = 3%nat ->
  Forall (fun ta => rest.failed_answer (snd ta)) failed ->
  rest.get_parameter server_url kwargs (mkNet (answers failed ++ rest) tr)
  = (Ok JNull, mkNet rest (tr ++ rounds_of kwargs failed)).
Proof.
  intros Hlen Hall.
  destruct failed as [| [t1 a1] [| [t2 a2] [| [t3 a3] [| ? ?]]]]; try discriminate.
  inversion Hall as [| ? ? H1 Hall1]; subst.
  inversion Hall1 as [| ? ? H2 Hall2]; subst.
  inversion Hall2 as [| ? ? H3 _]; subst.
  cbn [flat_map app fst snd] in *.
  rewrite (get_parameter_three_failures server_url kwargs t1 a1 t2 a2 t3 a3)
    by assumption.
  now rewrite !app_nil_r.
Qed.

Lemma for_return_trace {A} (b : nat) (body : ST Net (flow A)) (fb : A) :
  (forall n, exists evs,
      trace (snd (body n)) = trace n ++ evs /\
      (length evs <= b)%nat /\ forallb is_request evs = true) ->
  forall rounds n, exists evs,
    trace (snd (for_return rounds body fb n)) = trace n ++ evs /\
    (length evs <= length rounds * b)%nat /\ forallb is_request evs = true.
Proof.
  intros Hbody. induction rounds as [| [] rounds IH]; intros n.
  - exists []. cbn. now rewrite app_nil_r.
  - rewrite for_return_round.
    destruct (Hbody n) as (evs & Hevs & Hlen & Hall).
    destruct (body n) as [[[a |] | e |] n1]; cbn in Hevs;
      try (exists evs; cbn; repeat split; [assumption | lia | assumption]).
    destruct (IH n1) as (evs' & Hevs' & Hlen' & Hall').
    exists (evs ++ evs'). rewrite Hevs', Hevs, app_assoc.
    split; [reflexivity |]. split.
    + rewrite length_app. cbn. lia.
    + rewrite forallb_app. now rewrite Hall, Hall'.
Qed.

Lemma attempt_trace kwargs n :
  exists evs,
    trace (snd (attempt kwargs n)) = trace n ++ evs /\
    (length evs <= 2)%nat /\ forallb is_request evs = true.
Proof.
  destruct n as [[| [t | e] [| [a | e'] rest]] tr];
    try (eexists; split; [reflexivity | split; [cbn; lia | reflexivity]]);
    try (eexists; split; [cbn; rewrite <- app_assoc; reflexivity
                         | split; [cbn; lia | reflexivity]]).
  unfold bind at 1.
  rewrite get_token_answer. unfold bind at 1. rewrite requests_get_answer.
  exists [EvRequest (mkRequest (server_url +:+ "/php/rest/auth.php?") None None);
          EvRequest
            (mkRequest
               (rest.base_url server_url "/php/rest/getParameter.php?" kwargs
                +:+ "token=" +:+ text t) None None)].
  split; [| split; [cbn; lia | reflexivity]].
  unfold bind, lift_outcome, json_of, ret.
  destruct (json a) as [js |]; cbn; [| now rewrite <- app_assoc].
  destruct (rest.succeeded js) as [[|] | e |]; cbn; try now rewrite <- app_assoc.
  destruct (json_getitem "dataFileURLs" js); cbn; now rewrite <- app_assoc.
Qed.

(** X8.  Whatever the network does and however [get_parameter] ends, it
    has sent at most six requests and has never slept. *)
Theorem get_parameter_at_most_six_requests kwargs n :
  exists evs,
    trace (snd (rest.get_parameter server_url kwargs n)) = trace n ++ evs /\
    (length evs <= 6)%nat /\ forallb is_request evs = true.
Proof.
  unfold rest.get_parameter.
  destruct (for_return_trace 2 (attempt kwargs) JNull (attempt_trace kwargs)
              rest.three_rounds n) as (evs & Hevs & Hlen & Hall).
  exists evs. split; [assumption |]. split; [exact Hlen | assumption].
Qed.

End rest_more.

Section rest_flows.

Variable server_url : string.

(** X9.  [get_catalog_list], [get_user_parameters] and [get_catalog] make
    one attempt whatever the network does: none of them ever returns
    [None], none sleeps, and they send at most three, two and two requests;
    the [return None] after their loops is out of reach. *)
Theorem single_attempt_flows kwargs n :
  (fst (rest.get_catalog_list server_url kwargs n) <> Ok None /\
   exists evs,
     trace (snd (rest.get_catalog_list server_url kwargs n)) = trace n ++ evs /\
     (length evs <= 3)%nat /\ forallb is_request evs = true) /\
  (fst (rest.get_user_parameters server_url kwargs n) <> Ok None /\
   exists evs,
     trace (snd (rest.get_user_parameters server_url kwargs n)) = trace n ++ evs /\
     (length evs <= 2)%nat /\ forallb is_request evs = true) /\
  (fst (rest.get_catalog server_url kwargs n) <> Ok None /\
   exists evs,
     trace (snd (rest.get_catalog server_url kwargs n)) = trace n ++ evs /\
     (length evs <= 2)%nat /\ forallb is_request evs = true).
Proof.
  unfold rest.get_catalog_list, rest.get_user_parameters, rest.get_catalog,
    rest.three_rounds.
  rewrite !for_return_round.
  destruct n as [[| [t | e] [| [a | e'] [| [f | e''] rest]]] tr]; cbn;
    repeat split; try discriminate;
    eexists; (split; [rewrite <- ?app_assoc; reflexivity
                     | split; [cbn; lia | reflexivity]]).
Qed.

Lemma split_on_cons sep c s :
  split_on sep (String c s)
  = if Ascii.eqb c sep then EmptyString :: split_on sep s
    else match split_on sep s with
         | piece :: pieces => String c piece :: pieces
         | [] => [String c EmptyString]
         end.
Proof. reflexivity. Qed.

Lemma has_char_cons c c' s :
  has_char c (String c' s) = Ascii.eqb c' c || has_char c s.
Proof. reflexivity. Qed.

Lemma append_cons c a b : String c a +:+ b = String c (a +:+ b).
Proof. reflexivity. Qed.

Lemma split_on_clean sep a :
  has_char sep a = false -> split_on sep a = [a].
Proof.
  induction a as [| c a IH]; [reflexivity |].
  rewrite has_char_cons, split_on_cons.
  destruct (Ascii.eqb c sep); [discriminate |]. intros H.
  now rewrite (IH H).
Qed.

Lemma split_on_nonempty sep s : split_on sep s <> [].
Proof.
  induction s as [| c s IH]; [discriminate |].
  rewrite split_on_cons.
  destruct (Ascii.eqb c sep); [discriminate |].
  destruct (split_on sep s); [contradiction | discriminate].
Qed.

Lemma split_on_at sep a b :
  has_char sep a = false ->
  split_on sep (a +:+ String sep b) = a :: split_on sep b.
Proof.
  induction a as [| c a IH].
  - intros _. change ("" +:+ String sep b) with (String sep b).
    rewrite split_on_cons. now rewrite Ascii.eqb_refl.
  - rewrite has_char_cons, append_cons, split_on_cons.
    destruct (Ascii.eqb c sep); [discriminate |]. intros H.
    now rewrite (IH H).
Qed.

(** The first piece of a string that starts with a clean stretch. *)
Lemma split_on_head sep a b :
  has_char sep a = false ->
  exists piece pieces,
    split_on sep b = piece :: pieces /\
    split_on sep (a +:+ b) = (a +:+ piece) :: pieces.
Proof.
  intros Ha. destruct (split_on sep b) as [| piece pieces] eqn:Hb.
  - now destruct (split_on_nonempty sep b).
  - exists piece, pieces. split; [reflexivity |].
    induction a as [| c a IH]; [exact Hb |].
    rewrite has_char_cons in Ha. rewrite !append_cons, split_on_cons.
    destruct (Ascii.eqb c sep); [discriminate |].
    now rewrite (IH Ha).
Qed.

Lemma split_on_length sep s :
  has_char sep s = true -> (2 <= length (split_on sep s))%nat.
Proof.
  induction s as [| c s IH]; [discriminate |].
  rewrite has_char_cons, split_on_cons.
  destruct (Ascii.eqb c sep).
  - intros _. pose proof (split_on_nonempty sep s).
    destruct (split_on sep s); [contradiction | cbn; lia].
  - intros H. specialize (IH H).
    destruct (split_on sep s); cbn in *; lia.
Qed.

Lemma between_tags_index_error text :
  rest.between_tags text = IndexError <-> has_char ">" text = false.
Proof.
  unfold rest.between_tags, item. split.
  - destruct (has_char ">" text) eqn:H; [| reflexivity].
    apply split_on_length in H.
    destruct (split_on ">" text) as [| p0 [| p1 ps]]; cbn in *; try lia.
    pose proof (split_on_nonempty "<" p1).
    destruct (split_on "<" p1); [contradiction | discriminate].
  - intros H. now rewrite (split_on_clean _ _ H).
Qed.

Lemma between_tags_body pre body post :
  has_char ">" pre = false ->
  has_char "<" body = false -> has_char ">" body = false ->
  rest.between_tags (pre +:+ ">" +:+ body +:+ "<" +:+ post) = Item body.
Proof.
  intros Hpre Hlt Hgt. unfold rest.between_tags, item.
  change (pre +:+ ">" +:+ body +:+ "<" +:+ post)
    with (pre +:+ String ">" (body +:+ String "<" post)).
  rewrite (split_on_at _ _ _ Hpre).
  destruct (split_on_head ">" body (String "<" post) Hgt)
    as (piece & pieces & Hpost & ->).
  cbn [nth_error].
  assert (Hpiece : exists piece', piece = String "<" piece').
  { revert Hpost. rewrite split_on_cons.
    change (Ascii.eqb "<" ">") with false.
    destruct (split_on ">" post) as [| p ps] eqn:Hp; intros [= <- _]; eauto. }
  destruct Hpiece as [piece' ->].
  now rewrite (split_on_at _ _ _ Hlt).
Qed.

(** X10.  [get_obs_data_tree] sends one request and returns the address
    inside the first element of the answer: for an answer [pre>body<post]
    with no [>] in [pre] and neither [<] nor [>] in [body], it returns
    [body].  An answer without any [>] ends in [IndexError], and no other
    answer does. *)
Theorem get_obs_data_tree_address r rest tr :
  (forall pre body post,
     text r = pre +:+ ">" +:+ body +:+ "<" +:+ post ->
     has_char ">" pre = false ->
     has_char "<" body = false -> has_char ">" body = false ->
     rest.get_obs_data_tree server_url (mkNet (inl r :: rest) tr)
     = (Ok (Item body),
        mkNet rest
          (tr ++ [EvRequest
                    (mkRequest (server_url +:+ "/php/rest/getObsDataTree.php")
                       None None)]))) /\
  (fst (rest.get_obs_data_tree server_url (mkNet (inl r :: rest) tr))
   = Ok IndexError
   <-> has_char ">" (text r) = false).
Proof.
  unfold rest.get_obs_data_tree.
  rewrite (bind_ok _ _ _ _ _ (requests_get_answer _ None None r rest tr)).
  unfold ret. cbn [fst]. split.
  - intros pre body post -> Hpre Hlt Hgt.
    now rewrite between_tags_body.
  - rewrite <- between_tags_index_error. split; [now intros [= ->] | now intros ->].
Qed.

End rest_flows.

(** The answer of the service, an element around the address. *)
Lemma get_obs_data_tree_address_run :
  rest.get_obs_data_tree run.server_url
    (mkNet [inl (run.answer
                   "<LocalDataBaseParameters>http://amda.irap.omp.eu/a.xml</LocalDataBaseParameters>")]
       [])
  = (Ok (Item "http://amda.irap.omp.eu/a.xml"),
     mkNet []
       [EvRequest
          (mkRequest "http://amda.irap.omp.eu/php/rest/getObsDataTree.php"
             None None)]).
Proof.
  destruct (get_obs_data_tree_address run.server_url
              (run.answer
                 "<LocalDataBaseParameters>http://amda.irap.omp.eu/a.xml</LocalDataBaseParameters>")
              [] []) as [H _].
  exact (H "<LocalDataBaseParameters" "http://amda.irap.omp.eu/a.xml"
           "/LocalDataBaseParameters>" eq_refl eq_refl eq_refl eq_refl).
Defined.

(** ** Credentials in the address *)

Lemma append_empty_r s : s +:+ "" = s.
Proof. induction s as [| c s IH]; [reflexivity |]. now rewrite append_cons, IH. Qed.

Lemma prefix_append x y : String.prefix x (x +:+ y) = true.
Proof.
  induction x as [| c x IH]; [now destruct y |].
  rewrite append_cons. simpl. destruct (ascii_dec c c); [assumption | contradiction].
Qed.

Lemma prefix_append_r x : forall s b,
  String.prefix x s = true -> String.prefix x (s +:+ b) = true.
Proof.
  induction x as [| c x IH]; intros s b H; [now destruct (s +:+ b) |].
  destruct s as [| c' s]; [discriminate |]. rewrite append_cons.
  simpl in *. destruct (ascii_dec c c'); [now apply IH | discriminate].
Qed.

Lemma str_contains_unfold x s :
  str_contains x s
  = String.prefix x s ||
    match s with String _ s' => str_contains x s' | EmptyString => false end.
Proof. now destruct s. Qed.

Lemma str_contains_append_l x a : forall s,
  str_contains x s = true -> str_contains x (a +:+ s) = true.
Proof.
  induction a as [| c a IH]; intros s H; [assumption |].
  rewrite append_cons, str_contains_unfold, (IH s H). apply orb_true_r.
Qed.

Lemma str_contains_append_r x b : forall s,
  str_contains x s = true -> str_contains x (s +:+ b) = true.
Proof.
  induction s as [| c s IH]; intros H.
  - rewrite str_contains_unfold in H. rewrite orb_false_r in H.
    change ("" +:+ b) with b. rewrite str_contains_unfold.
    destruct x; [now destruct b | discriminate].
  - rewrite str_contains_unfold in H. rewrite append_cons, str_contains_unfold.
    apply orb_true_iff in H as [H | H].
    + change (String c (s +:+ b)) with (String c s +:+ b).
      now rewrite (prefix_append_r _ _ _ H).
    + rewrite (IH H). apply orb_true_r.
Qed.

Lemma str_contains_self x y : str_contains x (x +:+ y) = true.
Proof. rewrite str_contains_unfold, prefix_append. reflexivity. Qed.

Section rest_credentials.

Variable server_url : string.

(** Keyword arguments only ever add to the right of the address. *)
Lemma base_url_keeps x kwargs : forall base,
  str_contains x base = true ->
  str_contains x
    (fold_left (fun base kv => base +:+ fst kv +:+ "=" +:+ snd kv +:+ "&")
       kwargs base) = true.
Proof.
  induction kwargs as [| kv kwargs IH]; intros base H; [assumption |].
  cbn [fold_left]. apply IH. now apply str_contains_append_r.
Qed.

Lemma base_url_credentials endpoint username password kwargs :
  str_contains ("userID=" +:+ username +:+ "&")
    (rest.base_url server_url endpoint
       (("userID", username) :: ("password", password) :: kwargs)) = true /\
  str_contains ("password=" +:+ password +:+ "&")
    (rest.base_url server_url endpoint
       (("userID", username) :: ("password", password) :: kwargs)) = true.
Proof.
  unfold rest.base_url. cbn [fold_left fst snd]. split; apply base_url_keeps.
  - apply str_contains_append_r, str_contains_append_l.
    rewrite <- (append_empty_r ("userID" +:+ "=" +:+ username +:+ "&")).
    apply (str_contains_self ("userID=" +:+ username +:+ "&") "").
  - apply str_contains_append_l.
    rewrite <- (append_empty_r ("password" +:+ "=" +:+ password +:+ "&")).
    apply (str_contains_self ("password=" +:+ password +:+ "&") "").
Qed.

(** X11.  [list_user_timetables] passes the user's name and password on
    as keyword arguments, so they travel in the address of the request: in
    a run that goes through, the second request is to an address that
    contains [userID=<name>&] and [password=<password>&].  A keyword
    argument of the caller named [self], [username], [password] or
    [userID] is a [TypeError], raised before anything is sent. *)
Theorem list_user_timetables_credentials username password kwargs :
  (existsb (fun kv => rest.taken (fst kv)) kwargs = true ->
   forall n,
     rest.list_user_timetables server_url username password kwargs n
     = (Raise TypeError, n)) /\
  (existsb (fun kv => rest.taken (fst kv)) kwargs = false ->
   forall t a f rest tr,
   exists url,
     rest.list_user_timetables server_url username password kwargs
       (mkNet (inl t :: inl a :: inl f :: rest) tr)
     = (Ok (Some (strip (text f))),
        mkNet rest
          (tr ++ [EvRequest
                    (mkRequest (server_url +:+ "/php/rest/auth.php?") None None);
                  EvRequest (mkRequest url None None);
                  EvRequest (mkRequest (strip (text a)) None None)])) /\
     str_contains ("userID=" +:+ username +:+ "&") url = true /\
     str_contains ("password=" +:+ password +:+ "&") url = true).
Proof.
  unfold rest.list_user_timetables, rest.with_credentials. split; intros H.
  - intros n. now rewrite H.
  - intros t a f rest tr. rewrite H.
    destruct (base_url_credentials "/php/rest/getTimeTablesList.php?"
                username password kwargs) as [Hu Hp].
    eexists. split; [| split].
    + rewrite get_timetable_list_once.
      rewrite (bind_ok _ _ _ _ _ (get_token_answer server_url t _ tr)).
      rewrite (bind_ok _ _ _ _ _ (requests_get_answer _ None None a _ _)).
      rewrite (bind_ok _ _ _ _ _ (requests_get_answer _ None None f _ _)).
      unfold ret. rewrite <- !app_assoc. reflexivity.
    + now apply str_contains_append_r.
    + now apply str_contains_append_r.
Qed.

End rest_credentials.

(** The timetables of user [ada]: name and password are in the second
    address; a second user name is refused. *)
Lemma list_user_timetables_credentials_run :
  rest.list_user_timetables run.server_url "ada" "s3cret" []
    (mkNet [inl (run.answer "token");
            inl (run.answer " http://amda.irap.omp.eu/data/tt.xml ");
            inl (run.answer "<timetabList>...</timetabList>")] [])
  = (Ok (Some "<timetabList>...</timetabList>"),
     mkNet []
       [EvRequest (mkRequest "http://amda.irap.omp.eu/php/rest/auth.php?" None None);
        EvRequest
          (mkRequest
             ("http://amda.irap.omp.eu/php/rest/getTimeTablesList.php?"
              +:+ "userID=ada&password=s3cret&token=token") None None);
        EvRequest (mkRequest "http://amda.irap.omp.eu/data/tt.xml" None None)]) /\
  rest.list_user_timetables run.server_url "ada" "s3cret" [("username", "eve")]
    (mkNet [] [])
  = (Raise TypeError, mkNet [] []).
Proof.
  destruct (list_user_timetables_credentials run.server_url "ada" "s3cret" [])
    as [_ H].
  destruct (H eq_refl (run.answer "token")
              (run.answer " http://amda.irap.omp.eu/data/tt.xml ")
              (run.answer "<timetabList>...</timetabList>") [] [])
    as (url & Hrun & _).
  destruct (list_user_timetables_credentials run.server_url "ada" "s3cret"
              [("username", "eve")]) as [Hraise _].
  split; [vm_compute; reflexivity | apply Hraise; reflexivity].
Defined.

(** ** The inventory: snapshots, listings and kinds *)

Lemma on_inv_frame {A} (c : Inventory -> outcome A * Inventory) w :
  snd (on_inv c w) = set_inv (inv (snd (on_inv c w))) w.
Proof. unfold on_inv. now destruct (c (inv w)). Qed.

Section inventory_more.

Variable server_url : string.
Variable Tree : Type.
Variable xmltodict_parse : string -> option Tree.
Variable obs_extrac_all : Tree -> Inventory -> outcome unit * Inventory.
Variable tt_extrac_all : Tree -> Inventory -> outcome unit * Inventory.
Variable soap_get_obs_data_tree : ST Net string.
Variable datetime : Type.
Variable strptime : string -> string -> option datetime.

Abbreviation update_inventory :=
  (amda.update_inventory server_url Tree xmltodict_parse obs_extrac_all
     tt_extrac_all soap_get_obs_data_tree).
Abbreviation init :=
  (amda.__init__ server_url Tree xmltodict_parse obs_extrac_all
     tt_extrac_all soap_get_obs_data_tree).
Abbreviation parameter_range :=
  (amda.parameter_range server_url Tree xmltodict_parse obs_extrac_all
     tt_extrac_all soap_get_obs_data_tree datetime strptime).

(** X12.  What [update_inventory] saves is what [__init__] loads: after an
    update that went through, a new instance, whatever mappings it starts
    from, comes out of [__init__] with the mappings of the update, as long
    as the snapshot is in the cache, and without a single request. *)
Theorem init_loads_what_update_saved (w w1 : World) :
  update_inventory w = (Ok tt, w1) ->
  forall fresh, init (set_inv fresh w1) = (Ok tt, w1).
Proof.
  intros Hup fresh.
  destruct (update_inventory_ok _ _ _ _ _ _ _ _ Hup)
    as (tree & wa & i1 & tttree & wb & _ & _ & _ & _ & Hc & _).
  unfold amda.__init__, bind, gets, modify. cbn [cache set_inv].
  rewrite Hc, lookup_insert_eq. cbn. clear Hup Hc. now destruct w1.
Qed.

(** X13.  The snapshot is written last: an [update_inventory] that does
    not go through, for a request that fails, a document that does not
    parse or an extraction that raises, leaves the cache as it was; and no
    update, failed or not, touches the fragment store. *)
Theorem update_inventory_writes_last (w w' : World) o :
  update_inventory w = (o, w') ->
  store w' = store w /\ store_log w' = store_log w /\
  (returned o = false -> cache w' = cache w).
Proof.
  unfold amda.update_inventory. unfold bind at 1.
  pose proof (get_obs_data_tree_only_net Tree xmltodict_parse
                soap_get_obs_data_tree w) as Fa.
  destruct (amda.get_obs_data_tree Tree xmltodict_parse soap_get_obs_data_tree w)
    as [[tree | e |] wa]; cbn in Fa;
    try solve [intros [= <- <-]; rewrite Fa; cbn; auto].
  unfold bind at 1.
  pose proof (on_inv_frame (obs_extrac_all tree) wa) as Fb.
  destruct (on_inv (obs_extrac_all tree) wa) as [[[] | e |] wb]; cbn in Fb;
    try solve [intros [= <- <-]; rewrite Fb, Fa; cbn; auto].
  unfold bind at 1.
  pose proof (get_timetable_tree_only_net server_url Tree xmltodict_parse wb) as Fc.
  destruct (amda.get_timetable_tree server_url Tree xmltodict_parse wb)
    as [[tttree | e |] wc]; cbn in Fc;
    try solve [intros [= <- <-]; rewrite Fc, Fb, Fa; cbn; auto].
  unfold bind at 1.
  pose proof (on_inv_frame (tt_extrac_all tttree) wc) as Fd.
  destruct (on_inv (tt_extrac_all tttree) wc) as [[[] | e |] wd]; cbn in Fd;
    try solve [intros [= <- <-]; rewrite Fd, Fc, Fb, Fa; cbn; auto].
  unfold bind, gets, amda.cache_set, modify.
  intros [= <- <-]. rewrite Fd, Fc, Fb, Fa. cbn.
  split; [reflexivity |]. split; [reflexivity | discriminate].
Qed.

(** With a loaded inventory [parameter_range] is a pure lookup. *)
Lemma parameter_range_loaded parameter_id w :
  size (parameter (inv w)) <> 0%nat ->
  parameter_range parameter_id w
  = (amda.resolve_range datetime strptime (inv w) parameter_id, w).
Proof.
  intros Hsize.
  rewrite (parameter_range_unfold server_url Tree xmltodict_parse
             obs_extrac_all tt_extrac_all soap_get_obs_data_tree
             datetime strptime).
  destruct (size (parameter (inv w))) as [| n]; [congruence |]. reflexivity.
Qed.

(** X16.  A parameter has the range of its dataset: for a parameter id
    that is not itself a dataset id and whose [dataset] back-reference is a
    dataset id, [parameter_range] gives for the parameter what it gives
    for the dataset, the same range or the same exception, and changes
    nothing. *)
Theorem parameter_range_of_parameter (w : World) (p d : string)
    (rec : gmap string string) :
  parameter (inv w) !! p = Some rec ->
  rec !! "dataset" = Some d ->
  p ∉ dom (dataset (inv w)) ->
  d ∈ dom (dataset (inv w)) ->
  parameter_range p w = parameter_range d w /\
  snd (parameter_range p w) = w.
Proof.
  intros Hp Hd Hnot Hin.
  assert (Hsize : size (parameter (inv w)) <> 0%nat)
    by exact (dict_size_lookup _ _ _ Hp).
  rewrite !(parameter_range_loaded _ _ Hsize). split; [| reflexivity]. f_equal.
  unfold amda.resolve_range, amda.get_product_type, getitem.
  apply contains_false in Hnot. apply contains_true in Hin.
  rewrite Hnot, (contains_lookup _ _ _ Hp), Hin, Hp. cbn. now rewrite Hd.
Qed.

End inventory_more.

(** ** Listings, kinds and whole datasets *)

Lemma get_product_type_DATASET (self : Inventory) (id : string) :
  amda.get_product_type self id = DATASET <-> id ∈ dom (dataset self).
Proof.
  unfold amda.get_product_type. rewrite <- contains_true.
  destruct (contains (dataset self) id); [easy |].
  destruct (contains (parameter self) id); [easy |].
  destruct (contains (component self) id); easy.
Qed.

Lemma get_product_type_PARAMETER (self : Inventory) (id : string) :
  amda.get_product_type self id = PARAMETER <->
  (id ∉ dom (dataset self)) /\ (id ∈ dom (parameter self)).
Proof.
  unfold amda.get_product_type. rewrite <- contains_false, <- contains_true.
  destruct (contains (dataset self) id); [easy |].
  destruct (contains (parameter self) id); [easy |].
  destruct (contains (component self) id); easy.
Qed.

Lemma elem_of_keys_dom {V} (d : dict V) k : k ∈ keys d <-> k ∈ dom d.
Proof. now rewrite elem_of_keys, dict_elem_of_dom. Qed.

(** X14.  The listings agree with the kinds: [list_datasets] lists, each
    once, exactly the ids [get_product_type] calls DATASET, and the ids it
    calls PARAMETER are exactly those of [list_parameters()] that
    [list_datasets] does not list as well. *)
Theorem listings_agree_with_kinds (self : Inventory) :
  NoDup (amda.list_datasets self) /\
  (forall id, id ∈ amda.list_datasets self <->
              amda.get_product_type self id = DATASET) /\
  exists ps, amda.list_parameters self None = Ok ps /\
    forall id, amda.get_product_type self id = PARAMETER <->
               (id ∈ ps) /\ (id ∉ amda.list_datasets self).
Proof.
  unfold amda.list_datasets. split; [apply NoDup_keys |]. split.
  - intros id. now rewrite get_product_type_DATASET, elem_of_keys_dom.
  - exists (keys (parameter self)). split; [reflexivity |]. intros id.
    rewrite get_product_type_PARAMETER, !elem_of_keys_dom. tauto.
Qed.

(** X15.  [get_product_type] knows nothing of time tables and catalogs:
    it never answers TIMETABLE or CATALOG, its answer is the same in two
    inventories with the same dataset, parameter and component mappings,
    and an id [list_timetables] lists that is in none of the three is
    UNKNOWN and has no range. *)
Theorem get_product_type_never_timetable (self : Inventory) (id : string) :
  amda.get_product_type self id <> TIMETABLE /\
  amda.get_product_type self id <> CATALOG /\
  (forall self', dataset self' = dataset self ->
                 parameter self' = parameter self ->
                 component self' = component self ->
                 amda.get_product_type self' id = amda.get_product_type self id) /\
  (id ∈ amda.list_timetables self ->
   id ∉ dom (dataset self) -> id ∉ dom (parameter self) ->
   id ∉ dom (component self) ->
   amda.get_product_type self id = UNKNOWN /\
   forall datetime strptime,
     amda.resolve_range datetime strptime self id = Ok None).
Proof.
  unfold amda.resolve_range, amda.get_product_type.
  split; [| split; [| split]].
  - destruct (contains (dataset self) id); [easy |].
    destruct (contains (parameter self) id); [easy |].
    destruct (contains (component self) id); easy.
  - destruct (contains (dataset self) id); [easy |].
    destruct (contains (parameter self) id); [easy |].
    destruct (contains (component self) id); easy.
  - now intros self' -> -> ->.
  - intros _ Hd%contains_false Hp%contains_false Hc%contains_false.
    now rewrite Hd, Hp, Hc.
Qed.

Lemma for_each_length {S A B} (body : A -> ST S B) l :
  forall s r s', for_each body l s = (Ok r, s') -> length r = length l.
Proof.
  induction l as [| x l IH]; intros s r s' H.
  - cbn in H. unfold ret in H. now injection H as <- <-.
  - apply for_each_cons_ok in H as (b & s1 & bs & _ & Hbs & ->).
    cbn. f_equal. eapply IH, Hbs.
Qed.

Section dataset_more.

Variable server_url : string.
Variable str_float : Z -> string.
Variable load_csv : Json -> ST Net Series.
Variable Proxyfiable :
  (string -> Z -> Z -> ST Net (option Series)) ->
  string -> Z -> Z -> ST Net (option Series).

Abbreviation get_dataset :=
  (amda.get_dataset server_url str_float load_csv Proxyfiable).

(** X17.  [get_dataset] goes by the comprehension of [list_parameters]:
    one record without [dataset] back-reference anywhere in the parameter
    mapping makes it raise KeyError for any dataset id before anything is
    retrieved; in a catalog whose records all have one, a dataset id that
    no record names gives the empty list and changes nothing, and a call
    that returns gives one entry for each parameter the dataset owns. *)
Theorem get_dataset_by_listing (w : World) (dataset_id : string) (start stop : Z) :
  ((exists k p, parameter (inv w) !! k = Some p /\ p !! "dataset" = None) ->
   get_dataset dataset_id start stop w = (Raise KeyError, w)) /\
  ((forall k p, parameter (inv w) !! k = Some p -> is_Some (p !! "dataset")) ->
   ((forall k, amda.owned_by (inv w) dataset_id k = false) ->
    get_dataset dataset_id start stop w = (Ok [], w)) /\
   (forall results w',
      get_dataset dataset_id start stop w = (Ok results, w') ->
      length results
      = length (List.filter (amda.owned_by (inv w) dataset_id)
                  (keys (parameter (inv w)))))).
Proof.
  unfold amda.get_dataset, amda.list_parameters, bind, gets, lift_outcome.
  split.
  - intros (k & p & Hk & Hp).
    rewrite parameters_of_raises; [reflexivity | |].
    + intros k' Hk'. now apply elem_of_keys.
    + exists k, p. split; [apply elem_of_keys; eauto | now split].
  - intros Hwf.
    assert (Hlist : amda.parameters_of (inv w) dataset_id (keys (parameter (inv w)))
                    = Ok (List.filter (amda.owned_by (inv w) dataset_id)
                            (keys (parameter (inv w))))).
    { apply parameters_of_filter. intros k [p Hp]%elem_of_keys. eauto. }
    rewrite Hlist. split.
    + intros Hnone.
      assert (Hnil : forall ks,
                 List.filter (amda.owned_by (inv w) dataset_id) ks = []).
      { induction ks as [| k ks IH]; [reflexivity |].
        cbn [List.filter]. now rewrite Hnone. }
      now rewrite Hnil.
    + intros results w' H. eapply for_each_length, H.
Qed.

End dataset_more.

(** ** Downloads: [_dl_parameter], [_dl_user_parameter], [_dl_timetable] *)

Lemma append_associative (a b c : string) : (a +:+ b) +:+ c = a +:+ (b +:+ c).
Proof. induction a as [| x a IH]; [reflexivity |]. now rewrite !append_cons, IH. Qed.

Section downloads.

Variable server_url : string.
Variable str_float : Z -> string.
Variable load_csv : Json -> ST Net Series.
Variable Timetable : Type.
Variable load_timetable : string -> ST Net (option Timetable).
Variable strftime : Z -> string -> string.

Abbreviation _dl_parameter := (amda._dl_parameter server_url str_float load_csv).
Abbreviation _dl_user_parameter :=
  (amda._dl_user_parameter server_url load_csv strftime).
Abbreviation _dl_timetable :=
  (amda._dl_timetable server_url Timetable load_timetable).

(** A keyword argument is in the address, whatever comes before and
    after it. *)
Lemma base_url_kwarg endpoint pre k v post :
  str_contains (k +:+ "=" +:+ v +:+ "&")
    (rest.base_url server_url endpoint (pre ++ (k, v) :: post)) = true.
Proof.
  unfold rest.base_url. rewrite fold_left_app. cbn [fold_left fst snd].
  apply base_url_keeps, str_contains_append_l.
  pose proof (str_contains_self (k +:+ "=" +:+ v +:+ "&") "") as H.
  now rewrite append_empty_r in H.
Qed.


(** X19.  [_dl_user_parameter] sends the user's name and password in the
    address of its query, in every round: each round asks for a token and
    then requests an address that contains [userID=<name>&] and
    [password=<password>&]; after three failed answers it returns [None],
    having sent both three times. *)
Theorem dl_user_parameter_credentials (parameter_id username password : string)
    (start_time stop_time : Z) :
  let kwargs := [("parameterID", parameter_id);
                 ("userID", username);
                 ("password", password);
                 ("startTime", strftime start_time "%Y-%m-%dT%H:%M:%S.%f");
                 ("stopTime", strftime stop_time "%Y-%m-%dT%H:%M:%S.%f")] in
  (forall t, exists url,
     rest.parameter_round server_url kwargs t
     = [EvRequest (mkRequest (server_url +:+ "/php/rest/auth.php?") None None);
        EvRequest (mkRequest url None None)] /\
     str_contains ("userID=" +:+ username +:+ "&") url = true /\
     str_contains ("password=" +:+ password +:+ "&") url = true) /\
  (forall t1 a1 t2 a2 t3 a3 rest tr,
     rest.failed_answer a1 -> rest.failed_answer a2 -> rest.failed_answer a3 ->
     _dl_user_parameter parameter_id username password start_time stop_time
       (mkNet (inl t1 :: inl a1 :: inl t2 :: inl a2 :: inl t3 :: inl a3 :: rest) tr)
     = (Ok None,
        mkNet rest
          (tr ++ rest.parameter_round server_url kwargs t1
              ++ rest.parameter_round server_url kwargs t2
              ++ rest.parameter_round server_url kwargs t3))).
Proof.
  intros kwargs. split.
  - intros t. eexists. split; [reflexivity |]. split.
    + apply str_contains_append_r.
      exact (base_url_kwarg "/php/rest/getParameter.php?"
               [("parameterID", parameter_id)] "userID" username
               [("password", password);
                ("startTime", strftime start_time "%Y-%m-%dT%H:%M:%S.%f");
                ("stopTime", strftime stop_time "%Y-%m-%dT%H:%M:%S.%f")]).
    + apply str_contains_append_r.
      exact (base_url_kwarg "/php/rest/getParameter.php?"
               [("parameterID", parameter_id); ("userID", username)]
               "password" password
               [("startTime", strftime start_time "%Y-%m-%dT%H:%M:%S.%f");
                ("stopTime", strftime stop_time "%Y-%m-%dT%H:%M:%S.%f")]).
  - intros t1 a1 t2 a2 t3 a3 rest tr H1 H2 H3. unfold amda._dl_user_parameter.
    fold kwargs.
    now rewrite (bind_ok _ _ _ _ _
                   (get_parameter_three_failures server_url kwargs
                      t1 a1 t2 a2 t3 a3 rest tr H1 H2 H3)).
Qed.

(** X20.  [_dl_timetable] never takes its last [return None]: whenever it
    returns, [get_timetable] of the REST client has given an address and
    the value is the one [load_timetable] returned for it, so the result
    is [None] only if [load_timetable] returned [None].  Once a token and
    an answer have come in, whatever the status of that answer,
    [get_timetable] hands its stripped text to [load_timetable] as the
    address of the file, and ends as [load_timetable] does. *)
Theorem dl_timetable_from_loader (timetable_id : string) :
  (forall n r n',
     _dl_timetable timetable_id n = (Ok r, n') ->
     exists url n1,
       rest.get_timetable server_url [("ttID", timetable_id)] n
       = (Ok (Some url), n1) /\
       load_timetable url n1 = (Ok r, n')) /\
  (forall t a rest tr,
     amda.get_timetable server_url Timetable load_timetable timetable_id
       (mkNet (inl t :: inl a :: rest) tr)
     = load_timetable (strip (text a))
         (mkNet rest
            (tr ++ [EvRequest
                      (mkRequest (server_url +:+ "/php/rest/auth.php?") None None);
                    EvRequest
                      (mkRequest
                         (server_url +:+ "/php/rest/getTimeTable.php?"
                          +:+ "ttID=" +:+ timetable_id +:+ "&"
                          +:+ "token=" +:+ text t) None None)]))).
Proof.
  split.
  - intros n r n'. unfold amda._dl_timetable. unfold bind at 1.
    pose proof (get_timetable_not_none server_url [("ttID", timetable_id)] n) as Hnn.
    destruct (rest.get_timetable server_url [("ttID", timetable_id)] n)
      as [[[url |] | e |] n1]; cbn in Hnn; try discriminate; [| congruence].
    unfold bind, ret. intros H. exists url, n1. split; [reflexivity |].
    destruct (load_timetable url n1) as [[var | e |] n2]; congruence.
  - intros t a rest tr. unfold amda.get_timetable, amda._dl_timetable.
    rewrite (bind_ok _ _ _ (Some (strip (text a)))
               (mkNet rest
                  (tr ++ [EvRequest
                            (mkRequest (server_url +:+ "/php/rest/auth.php?")
                               None None);
                          EvRequest
                            (mkRequest
                               (rest.base_url server_url
                                  "/php/rest/getTimeTable.php?"
                                  [("ttID", timetable_id)]
                                +:+ "token=" +:+ text t) None None)]))).
    + unfold rest.base_url. cbn [fold_left fst snd].
      rewrite !append_associative. unfold bind, ret.
      now destruct (load_timetable _ _) as [[var | e |] n2].
    + rewrite get_timetable_once.
      rewrite (bind_ok _ _ _ _ _ (get_token_answer server_url t _ tr)).
      rewrite (bind_ok _ _ _ _ _ (requests_get_answer _ None None a rest _)).
      unfold ret. now rewrite <- app_assoc.
Qed.

End downloads.

(** ** The theorems above on the catalog and the answers of the runs *)

(** The answer that points to the file passes the test; null does not
    get that far. *)
Lemma succeeded_exactly_run :
  rest.succeeded
    (JObj (<["success" := JBool true]>
             (<["dataFileURLs" := JStr run.file_url]> ∅))) = Ok true /\
  rest.succeeded JNull = Raise TypeError.
Proof.
  destruct (succeeded_exactly
              (JObj (<["success" := JBool true]>
                       (<["dataFileURLs" := JStr run.file_url]> ∅))))
    as ((_ & Hok) & _ & _).
  destruct (succeeded_exactly JNull) as (_ & _ & Hnull).
  split.
  - apply Hok. eexists _, (JStr run.file_url).
    split; [reflexivity |]. split; vm_compute; reflexivity.
  - apply Hnull. now left.
Defined.

(** One refusal, then the answer that points to the file: two rounds. *)
Lemma get_parameter_success_after_failures_run :
  exists urls,
    json_getitem "dataFileURLs"
      (JObj (<["success" := JBool true]>
               (<["dataFileURLs" := JStr run.file_url]> ∅))) = Ok urls /\
    rest.get_parameter run.server_url [("parameterID", "imf")]
      (mkNet ([inl (run.answer "token"); inl run.refusal]
              ++ inl (run.answer "nekot")
                 :: inl (run.answer_json
                           (JObj (<["success" := JBool true]>
                                    (<["dataFileURLs" := JStr run.file_url]> ∅))))
                 :: [inl run.refusal]) [])
    = (Ok urls,
       mkNet [inl run.refusal]
         ([] ++ rest.parameter_round run.server_url [("parameterID", "imf")]
                  (run.answer "token")
             ++ rest.parameter_round run.server_url [("parameterID", "imf")]
                  (run.answer "nekot"))).
Proof.
  assert (Hall : Forall (fun ta : Response * Response => rest.failed_answer (snd ta))
                   [(run.answer "token", run.refusal)]).
  { constructor; [| constructor]. eexists. split; [reflexivity |].
    vm_compute. reflexivity. }
  assert (Hlen : (length [(run.answer "token", run.refusal)] < 3)%nat)
    by (cbn; lia).
  exact (get_parameter_success_after_failures run.server_url
           [("parameterID", "imf")] [(run.answer "token", run.refusal)]
           (run.answer "nekot")
           (run.answer_json
              (JObj (<["success" := JBool true]>
                       (<["dataFileURLs" := JStr run.file_url]> ∅))))
           (JObj (<["success" := JBool true]>
                    (<["dataFileURLs" := JStr run.file_url]> ∅)))
           [inl run.refusal] [] Hlen Hall eq_refl eq_refl).
Defined.

(** Three refusals: the good answer that follows is left unread. *)
Lemma get_parameter_gives_up_after_three_run :
  rest.get_parameter run.server_url [("parameterID", "imf")]
    (mkNet ([inl (run.answer "a"); inl run.refusal;
             inl (run.answer "b"); inl run.refusal;
             inl (run.answer "c"); inl run.refusal]
            ++ run.fetch_script "946684800") [])
  = (Ok JNull,
     mkNet (run.fetch_script "946684800")
       ([] ++ rest.parameter_round run.server_url [("parameterID", "imf")]
                (run.answer "a")
           ++ rest.parameter_round run.server_url [("parameterID", "imf")]
                (run.answer "b")
           ++ rest.parameter_round run.server_url [("parameterID", "imf")]
                (run.answer "c"))).
Proof.
  assert (Hfail : rest.failed_answer run.refusal).
  { eexists. split; [reflexivity |]. vm_compute. reflexivity. }
  assert (Hall : Forall (fun ta : Response * Response => rest.failed_answer (snd ta))
                   [(run.answer "a", run.refusal); (run.answer "b", run.refusal);
                    (run.answer "c", run.refusal)]).
  { repeat (constructor; [exact Hfail |]). constructor. }
  refine (eq_trans
            (get_parameter_gives_up_after_three run.server_url
               [("parameterID", "imf")]
               [(run.answer "a", run.refusal); (run.answer "b", run.refusal);
                (run.answer "c", run.refusal)]
               (run.fetch_script "946684800") [] eq_refl Hall) _).
  reflexivity.
Defined.

(** A new instance after the update of the runs: the mappings of the
    update, and no request. *)
Lemma init_loads_what_update_saved_run :
  amda.__init__ run.server_url run.Tree run.xmltodict_parse
    run.obs_extrac_all run.tt_extrac_all run.soap_get_obs_data_tree
    (set_inv empty_inventory run.updated_world)
  = (Ok tt, run.updated_world).
Proof.
  assert (Hup : amda.update_inventory run.server_url run.Tree run.xmltodict_parse
                  run.obs_extrac_all run.tt_extrac_all run.soap_get_obs_data_tree
                  (run.world_of empty_inventory run.update_script)
                = (Ok tt, run.updated_world))
    by (vm_compute; reflexivity).
  exact (init_loads_what_update_saved run.server_url run.Tree run.xmltodict_parse
           run.obs_extrac_all run.tt_extrac_all run.soap_get_obs_data_tree
           _ _ Hup empty_inventory).
Defined.

(** With the network down the update fails at its first request. *)
Lemma update_inventory_writes_last_run :
  cache (snd (amda.update_inventory run.server_url run.Tree run.xmltodict_parse
                run.obs_extrac_all run.tt_extrac_all run.soap_get_obs_data_tree
                run.stale_world))
  = cache run.stale_world.
Proof.
  destruct (amda.update_inventory run.server_url run.Tree run.xmltodict_parse
              run.obs_extrac_all run.tt_extrac_all run.soap_get_obs_data_tree
              run.stale_world) as [o w'] eqn:Hrun.
  destruct (update_inventory_writes_last run.server_url run.Tree
              run.xmltodict_parse run.obs_extrac_all run.tt_extrac_all
              run.soap_get_obs_data_tree run.stale_world w' o Hrun)
    as (_ & _ & Hcache).
  apply Hcache. vm_compute in Hrun. injection Hrun as <- _. reflexivity.
Defined.

(** The listings of the catalog of the runs. *)
Lemma listings_agree_with_kinds_run :
  amda.get_product_type run.catalog "ace-imf-all" = DATASET /\
  amda.get_product_type run.catalog "imf" = PARAMETER.
Proof.
  destruct (listings_agree_with_kinds run.catalog)
    as (_ & Hd & ps & Hps & Hp).
  split.
  - apply Hd, elem_of_keys. exists run.ace_imf_all. vm_compute. reflexivity.
  - apply Hp.
    assert (ps = keys (parameter run.catalog)) as ->
      by (unfold amda.list_parameters in Hps; congruence).
    split.
    + apply elem_of_keys. exists run.imf. vm_compute. reflexivity.
    + intros [v Hv]%elem_of_keys. vm_compute in Hv. discriminate.
Defined.

(** A timetable id is no product. *)
Lemma get_product_type_never_timetable_run :
  amda.get_product_type run.timetables_only "sharedtimeTable_0" = UNKNOWN /\
  amda.resolve_range run.datetime run.strptime run.timetables_only
    "sharedtimeTable_0" = Ok None.
Proof.
  destruct (get_product_type_never_timetable run.timetables_only
              "sharedtimeTable_0") as (_ & _ & _ & H).
  destruct H as [Hu Hr].
  - apply elem_of_keys. exists ∅. vm_compute. reflexivity.
  - now apply dict_not_elem_of_dom.
  - now apply dict_not_elem_of_dom.
  - now apply dict_not_elem_of_dom.
  - split; [exact Hu | apply Hr].
Defined.

(** [imf] and [ace-imf-all], as in the example of the package. *)
Lemma parameter_range_of_parameter_run :
  amda.parameter_range run.server_url run.Tree run.xmltodict_parse
    run.obs_extrac_all run.tt_extrac_all run.soap_get_obs_data_tree
    run.datetime run.strptime "imf" (run.world_of run.catalog [])
  = amda.parameter_range run.server_url run.Tree run.xmltodict_parse
      run.obs_extrac_all run.tt_extrac_all run.soap_get_obs_data_tree
      run.datetime run.strptime "ace-imf-all" (run.world_of run.catalog []).
Proof.
  refine (proj1 (parameter_range_of_parameter run.server_url run.Tree
                   run.xmltodict_parse run.obs_extrac_all run.tt_extrac_all
                   run.soap_get_obs_data_tree run.datetime run.strptime
                   (run.world_of run.catalog []) "imf" "ace-imf-all" run.imf
                   _ _ _ _)).
  - vm_compute. reflexivity.
  - vm_compute. reflexivity.
  - now apply dict_not_elem_of_dom.
  - apply dict_elem_of_dom. exists run.ace_imf_all. reflexivity.
Defined.

(** One orphan record, and no dataset can be retrieved; without it, a
    dataset nobody names is empty. *)
Lemma get_dataset_by_listing_run :
  amda.get_dataset run.server_url run.str_float run.load_csv run.Proxyfiable
    "ace-imf-all" run.t0 run.t12 (run.world_of run.orphan_catalog [])
  = (Raise KeyError, run.world_of run.orphan_catalog []) /\
  amda.get_dataset run.server_url run.str_float run.load_csv run.Proxyfiable
    "wind-mfi" run.t0 run.t12 (run.world_of run.catalog [])
  = (Ok [], run.world_of run.catalog []).
Proof.
  destruct (get_dataset_by_listing run.server_url run.str_float run.load_csv
              run.Proxyfiable (run.world_of run.orphan_catalog [])
              "ace-imf-all" run.t0 run.t12) as [Hraise _].
  destruct (get_dataset_by_listing run.server_url run.str_float run.load_csv
              run.Proxyfiable (run.world_of run.catalog [])
              "wind-mfi" run.t0 run.t12) as [_ Hwf].
  split.
  - apply Hraise. exists "orphan", ∅. split; vm_compute; reflexivity.
  - apply Hwf.
    + intros k p Hk.
      change (parameter (inv (run.world_of run.catalog [])) !! k)
        with (if String.eqb "imf" k then Some run.imf else None) in Hk.
      destruct (String.eqb "imf" k); [| discriminate].
      injection Hk as <-. vm_compute. eauto.
    + intros k. unfold amda.owned_by.
      change (parameter (inv (run.world_of run.catalog [])) !! k)
        with (if String.eqb "imf" k then Some run.imf else None).
      destruct (String.eqb "imf" k); reflexivity.
Defined.


(** Three refusals to a user's query. *)
Lemma dl_user_parameter_credentials_run :
  fst (amda._dl_user_parameter run.server_url run.load_csv run.strftime
         "ws_0" "ada" "s3cret" run.t0 run.t12
         (mkNet [inl (run.answer "a"); inl run.refusal;
                 inl (run.answer "b"); inl run.refusal;
                 inl (run.answer "c"); inl run.refusal] []))
  = Ok None.
Proof.
  assert (Hfail : rest.failed_answer run.refusal).
  { eexists. split; [reflexivity |]. vm_compute. reflexivity. }
  destruct (dl_user_parameter_credentials run.server_url run.load_csv run.strftime
              "ws_0" "ada" "s3cret" run.t0 run.t12) as [_ H].
  now rewrite (H (run.answer "a") run.refusal (run.answer "b") run.refusal
                 (run.answer "c") run.refusal [] [] Hfail Hfail Hfail).
Defined.

(** An error page where the address of the file should be: its text is
    the address [load_timetable] is sent to, and an empty file gives
    [None], which is then the loader's. *)
Lemma dl_timetable_from_loader_run :
  amda.get_timetable run.server_url run.Timetable run.load_timetable "tt_0"
    (mkNet [inl (run.answer "token"); inl run.error_page; inl (run.answer "")] [])
  = (Ok None,
     mkNet []
       [EvRequest (mkRequest "http://amda.irap.omp.eu/php/rest/auth.php?" None None);
        EvRequest
          (mkRequest
             "http://amda.irap.omp.eu/php/rest/getTimeTable.php?ttID=tt_0&token=token"
             None None);
        EvRequest (mkRequest (strip (text run.error_page)) None None)]) /\
  exists url n1,
    rest.get_timetable run.server_url [("ttID", "tt_0")]
      (mkNet [inl (run.answer "token"); inl run.error_page; inl (run.answer "")] [])
    = (Ok (Some url), n1) /\
    run.load_timetable url n1
    = (Ok None,
       mkNet []
         [EvRequest (mkRequest "http://amda.irap.omp.eu/php/rest/auth.php?" None None);
          EvRequest
            (mkRequest
               "http://amda.irap.omp.eu/php/rest/getTimeTable.php?ttID=tt_0&token=token"
               None None);
          EvRequest (mkRequest (strip (text run.error_page)) None None)]).
Proof.
  destruct (dl_timetable_from_loader run.server_url run.Timetable
              run.load_timetable "tt_0") as [Hfrom Hrun].
  split.
  - rewrite (Hrun (run.answer "token") run.error_page [inl (run.answer "")] []).
    vm_compute. reflexivity.
  - apply Hfrom. vm_compute. reflexivity.
Defined.
